(** * pymatgen.io.lammps.data: LAMMPS data files

    A shallow embedding of [pymatgen/io/lammps/data.py] (classes
    [LammpsData] and [LammpsForceFieldData]) and the properties of its
    builders, writer and parser.

    Conventions of the embedding.
    - A Python [str] is a [list ascii]; the text handled is ASCII.
    - A Python exception is a constructor of [exn]; a function that may
      raise returns a [result].
    - A Python [float] is kept abstract: a [FloatModel] gives the type of
      floats together with [float(s)] and [str(x)].  Every statement holds
      for every such model.
    - A Python [dict] that is only looked up is a [gmap]; a [dict] that is
      iterated is its list of items in insertion order. *)

From Stdlib Require Import ZArith List Ascii String Lia Bool.
From Stdlib Require Import Decimal DecimalString DecimalZ.
From stdpp Require Import base option list gmap strings.

(** ** Python results *)

Inductive exn : Set :=
  | AttributeError | IndexError | KeyError | NameError | TypeError | ValueError.

Inductive result (A : Type) : Type :=
  | Ok (a : A)
  | Raise (e : exn).
Arguments Ok {A} a.
Arguments Raise {A} e.

#[global] Instance result_ret : MRet result := @Ok.
#[global] Instance result_bind : MBind result :=
  λ A B f m, match m with Ok a => f a | Raise e => Raise e end.

(** [for x in l: s = body x s], stopping at the first exception. *)
Fixpoint for_each {A S : Type} (l : list A) (body : A → S → result S) (s : S)
  : result S :=
  match l with
  | [] => Ok s
  | x :: l' => s' ← body x s; for_each l' body s'
  end.

(** [range(n)] and [enumerate(l)]. *)
Definition range (n : nat) : list nat := seq 0 n.
Definition enumerate {A : Type} (l : list A) : list (nat * A) :=
  zip (seq 0 (length l)) l.

(** [l[i]] for a Python integer [i]: negative indices count from the end. *)
Definition py_index {A : Type} (l : list A) (i : Z) : result A :=
  let n := Z.of_nat (length l) in
  let j := if decide (i < 0)%Z then (i + n)%Z else i in
  if decide (0 ≤ j < n)%Z
  then match l !! Z.to_nat j with Some x => Ok x | None => Raise IndexError end
  else Raise IndexError.

(** ** Floats and cell values *)

Class FloatModel : Type := {
  float : Type;
  float_zero : float;                           (* 0.0 *)
  float_of_str : list ascii → option float;     (* float(s); None: ValueError *)
  str_of_float : float → list ascii;            (* str(x) *)
}.

(** A cell of a table: tables are lists of rows mixing [int] and [float]. *)
Inductive value `{FloatModel} : Type :=
  | VInt (z : Z)
  | VFloat (x : float).

(** A symbolic type label, e.g. [("c1", "c2")]: a tuple of names. *)
Abbreviation label := (list string).

(** Python strings. *)
Abbreviation str := (list ascii).
Definition lit (s : string) : str := list_ascii_of_string s.

(** [d[k] = v] on the items of a dict: a new key goes last. *)
Fixpoint dict_set {K V : Type} `{EqDecision K} (d : list (K * V)) (k : K) (v : V)
  : list (K * V) :=
  match d with
  | [] => [(k, v)]
  | (k', v') :: d' =>
      if decide (k = k') then (k, v) :: d' else (k', v') :: dict_set d' k v
  end.

(** [raise e] when a lookup finds nothing. *)
Definition or_raise {A : Type} (e : exn) (o : option A) : result A :=
  match o with Some a => Ok a | None => Raise e end.

(** * Part I: the embedding *)

(** ** Characters, strings and numbers of the text format *)

Definition code (c : ascii) : nat := nat_of_ascii c.
Definition in_range (lo hi : nat) (c : ascii) : bool :=
  (lo <=? code c) && (code c <=? hi).
Definition is_char (a c : ascii) : bool := Ascii.eqb a c.

(** The character classes of the patterns. [\s] is Python 3's on ASCII
    text: tab to carriage return, the separators 28 to 31, and space. *)
Definition is_space (c : ascii) : bool := in_range 9 13 c || in_range 28 32 c.
Definition is_digit (c : ascii) : bool := in_range 48 57 c.
Definition is_alpha (c : ascii) : bool := in_range 65 90 c || in_range 97 122 c.
Definition is_word (c : ascii) : bool :=
  is_alpha c || is_digit c || is_char "_" c.
(** [[0-9\.]] *)
Definition is_mass_char (c : ascii) : bool := is_digit c || is_char "." c.
(** [[0-9eE\.+-]] *)
Definition is_num_char (c : ascii) : bool :=
  is_digit c || is_char "e" c || is_char "E" c || is_char "." c
  || is_char "+" c || is_char "-" c.
(** [[xyz]] *)
Definition is_xyz (c : ascii) : bool := in_range 120 122 c.

Definition newline : ascii := ascii_of_nat 10.

(** [s.lower()] *)
Definition lower_char (c : ascii) : ascii :=
  if in_range 65 90 c then ascii_of_nat (code c + 32) else c.
Definition lower (s : str) : str := map lower_char s.

(** [s.startswith(p)] and [needle in hay] *)
Fixpoint starts_with (p s : str) : bool :=
  match p, s with
  | [], _ => true
  | a :: p', b :: s' => is_char a b && starts_with p' s'
  | _ :: _, [] => false
  end.
Fixpoint contains (needle hay : str) : bool :=
  starts_with needle hay
  || match hay with [] => false | _ :: hay' => contains needle hay' end.

(** [s.split()]: the maximal runs of characters that are not blanks. *)
Fixpoint split (s : str) : list str :=
  match s with
  | [] => []
  | c :: s' =>
      if is_space c then split s'
      else match s' with
           | [] => [[c]]
           | d :: _ =>
               if is_space d then [c] :: split s'
               else match split s' with
                    | t :: ts => (c :: t) :: ts
                    | [] => [[c]]
                    end
           end
  end.

(** [sep.join(l)] *)
Fixpoint join (sep : str) (l : list str) : str :=
  match l with
  | [] => []
  | [a] => a
  | a :: l' => a ++ sep ++ join sep l'
  end.

(** The lines a text file yields when iterated: each keeps its newline,
    the last may have none.  ([open] has already turned every line ending
    into a newline.) *)
Fixpoint readlines (text : str) : list str :=
  match text with
  | [] => []
  | c :: t =>
      if is_char newline c then [c] :: readlines t
      else match readlines t with
           | [] => [[c]]
           | l :: ls => (c :: l) :: ls
           end
  end.

(** [str(n)] for an integer. *)
Definition str_int (n : Z) : str :=
  list_ascii_of_string (NilZero.string_of_int (Z.to_int n)).
Definition str_nat (n : nat) : str := str_int (Z.of_nat n).

(** The digits of an integer literal: digits, with single underscores
    allowed between two digits (Python 3.6 and later). *)
Fixpoint literal_digits (after_digit : bool) (s : str) : option str :=
  match s with
  | [] => if after_digit then Some [] else None
  | c :: s' =>
      if is_digit c then (c ::.) <$> literal_digits true s'
      else if is_char "_" c && after_digit then literal_digits false s'
      else None
  end.

(** [int(s)] for a string without blanks around it; [None]: ValueError. *)
Definition int_of_str (s : str) : option Z :=
  let '(negative, body) :=
    match s with
    | c :: s' =>
        if is_char "-" c then (true, s')
        else if is_char "+" c then (false, s') else (false, s)
    | [] => (false, s)
    end in
  ds ← literal_digits false body;
  u ← NilEmpty.uint_of_string (string_of_list_ascii ds);
  Some (if negative then (- Z.of_uint u)%Z else Z.of_uint u).

Definition py_int (s : str) : result Z := or_raise ValueError (int_of_str s).
Definition py_float `{FloatModel} (s : str) : result float :=
  or_raise ValueError (float_of_str s).

(** A float model for the examples: a float is the text of a literal
    over the characters of [[0-9eE\.+-]]. *)
Definition plain_literal (s : str) : bool :=
  match s with [] => false | _ :: _ => forallb is_num_char s end.
Definition literal_floats : FloatModel :=
  {| float := str;
     float_zero := lit "0.0";
     float_of_str := λ s, if plain_literal s then Some s else None;
     str_of_float := λ s, s |}.

(** [str(v)] for a cell; ["{}".format(v)] is the same text. *)
Definition str_value `{FloatModel} (v : value) : str :=
  match v with
  | VInt n => str_int n
  | VFloat a => str_of_float a
  end.

(** ** Regular expressions

    The patterns of the module are sequences of character classes under
    [*] and [+], captured groups [(c+)], single characters and a final
    [$].  Each starts with [^], so [search] tries position 0 only.
    Matching is Python's: greedy, backtracking, first match wins. *)

Inductive rx : Type :=
  | Cls (c : ascii → bool)     (* one character of the class *)
  | Star (c : ascii → bool)    (* c* *)
  | Plus (c : ascii → bool)    (* c+ *)
  | Grp (c : ascii → bool)     (* (c+), captured *)
  | Eol.                       (* $ *)

(** [$]: at the end, or just before a newline that ends the string. *)
Definition at_eol (s : str) : bool :=
  match s with
  | [] => true
  | [c] => is_char newline c
  | _ => false
  end.

(** The longest run of [c] first, then shorter ones: [k taken rest]. *)
Fixpoint greedy {R : Type} (c : ascii → bool) (k : str → str → option R)
    (s : str) : option R :=
  match s with
  | a :: s' =>
      if c a then
        match greedy c (λ taken rest, k (a :: taken) rest) s' with
        | Some r => Some r
        | None => k [] s
        end
      else k [] s
  | [] => k [] []
  end.

(** The captured groups of the first match of [p] at the start of [s]. *)
Fixpoint rmatch (p : list rx) (s : str) : option (list str) :=
  match p with
  | [] => Some []
  | Cls c :: p' =>
      match s with
      | a :: s' => if c a then rmatch p' s' else None
      | [] => None
      end
  | Star c :: p' => greedy c (λ _ rest, rmatch p' rest) s
  | Plus c :: p' =>
      greedy c (λ taken rest,
                  match taken with [] => None | _ :: _ => rmatch p' rest end) s
  | Grp c :: p' =>
      greedy c (λ taken rest,
                  match taken with
                  | [] => None
                  | _ :: _ => (taken ::.) <$> rmatch p' rest
                  end) s
  | Eol :: p' => if at_eol s then rmatch p' s else None
  end.

(** [pattern.search(line)] for a pattern that starts with [^]. *)
Definition search (pattern : list rx) (line : str) : option (list str) :=
  rmatch pattern line.

Definition chars (s : string) : list rx := map (λ a, Cls (is_char a)) (lit s).

(** ["^\s*(\d+)\s+([a-zA-Z]+)\s+types$"] *)
Definition types_pattern : list rx :=
  [Star is_space; Grp is_digit; Plus is_space; Grp is_alpha; Plus is_space]
  ++ chars "types" ++ [Eol].
(** ["^\s*(\d+)\s+([0-9\.]+)$"] *)
Definition masses_pattern : list rx :=
  [Star is_space; Grp is_digit; Plus is_space; Grp is_mass_char; Eol].
(** ["^\s*(\d+)\s+(\d+)\s+(\d+)\s+([0-9eE\.+-]+)\s+([0-9eE\.+-]+)\s+
      ([0-9eE\.+-]+)\s+([0-9eE\.+-]+)\w*"] *)
Definition atoms_pattern : list rx :=
  [Star is_space; Grp is_digit; Plus is_space; Grp is_digit; Plus is_space;
   Grp is_digit; Plus is_space; Grp is_num_char; Plus is_space;
   Grp is_num_char; Plus is_space; Grp is_num_char; Plus is_space;
   Grp is_num_char; Star is_word].
(** ["^\s*(\d+)\s+(\d+)\s+(\d+)\s+([0-9eE\.+-]+)\s+([0-9eE\.+-]+)\s+
      ([0-9eE\.+-]+)\w*"], for [atom_style = atomic] *)
Definition atoms_pattern_atomic : list rx :=
  [Star is_space; Grp is_digit; Plus is_space; Grp is_digit; Plus is_space;
   Grp is_digit; Plus is_space; Grp is_num_char; Plus is_space;
   Grp is_num_char; Plus is_space; Grp is_num_char; Star is_word].
(** ["[xyz]lo\s+[xyz]hi"] *)
Definition lo_hi : list rx :=
  [Cls is_xyz] ++ chars "lo" ++ [Plus is_space; Cls is_xyz] ++ chars "hi".
(** ["^([0-9eE\.+-]+)\s+([0-9eE\.+-]+)\s+[xyz]lo\s+[xyz]hi"] *)
Definition box_pattern_basic : list rx :=
  [Grp is_num_char; Plus is_space; Grp is_num_char; Plus is_space] ++ lo_hi.
(** ["^\s*([0-9eE\.+-]+)\s+([0-9eE\.+-]+)\s+[xyz]lo\s+[xyz]hi"] *)
Definition box_pattern : list rx := Star is_space :: box_pattern_basic.
(** ["^\s*(\d+)\s+([0-9\.]+)\s+([0-9\.]+)$"] *)
Definition general_coeff_pattern : list rx :=
  [Star is_space; Grp is_digit; Plus is_space; Grp is_mass_char;
   Plus is_space; Grp is_mass_char; Eol].
(** ["^\s*(\d+)\s+(\d+)\s+(\d+)\s+(\d+)\s*$"] *)
Definition bond_data_pattern : list rx :=
  [Star is_space; Grp is_digit; Plus is_space; Grp is_digit; Plus is_space;
   Grp is_digit; Plus is_space; Grp is_digit; Star is_space; Eol].
(** ["^\s*(\d+)\s+(\d+)\s+(\d+)\s+(\d+)\s+(\d+)\s*$"] *)
Definition angle_data_pattern : list rx :=
  [Star is_space; Grp is_digit; Plus is_space; Grp is_digit; Plus is_space;
   Grp is_digit; Plus is_space; Grp is_digit; Plus is_space; Grp is_digit;
   Star is_space; Eol].
(** ["^\s*(\d+)\s+(\d+)\s+(\d+)\s+(\d+)\s+(\d+)\s+(\d+)\s*$"] *)
Definition dihedral_data_pattern : list rx :=
  [Star is_space; Grp is_digit; Plus is_space; Grp is_digit; Plus is_space;
   Grp is_digit; Plus is_space; Grp is_digit; Plus is_space; Grp is_digit;
   Plus is_space; Grp is_digit; Star is_space; Eol].

(** [m.group(i)] *)
Definition group (m : list str) (i : nat) : result str :=
  or_raise IndexError (m !! (i - 1)).


(** ** class LammpsData *)

Module LammpsData.
Section Class.
Context `{FM : FloatModel}.

Record t : Type := {
  box_size : list (list value);
  natoms : nat;
  natom_types : nat;
  atomic_masses : list (list value);
  atoms_data : list (list value);
}.

Definition __init__ (box_size atomic_masses atoms_data : list (list value)) : t :=
  {| box_size := box_size;
     natoms := length atoms_data;
     natom_types := length atomic_masses;
     atomic_masses := atomic_masses;
     atoms_data := atoms_data |}.

Definition set_lines_from_list (lines : list str) (block_name : string)
    (input_list : list (list value)) : list str :=
  match input_list with
  | [] => lines
  | _ :: _ =>
      (lines ++ [[newline] ++ lit block_name ++ lit " " ++ [newline]])
      ++ map (λ ad, join (lit " ") (map str_value ad)) input_list
  end.

(** [box_size[i][j]] *)
Definition box_entry (box_size : list (list value)) (i j : nat) : result value :=
  row ← or_raise IndexError (box_size !! i);
  or_raise IndexError (row !! j).

(** ["{} {} xlo xhi\n{} {} ylo yhi\n{} {} zlo zhi".format(...)] *)
Definition box_text (box_size : list (list value)) : result str :=
  x0 ← box_entry box_size 0 0; x1 ← box_entry box_size 0 1;
  y0 ← box_entry box_size 1 0; y1 ← box_entry box_size 1 1;
  z0 ← box_entry box_size 2 0; z1 ← box_entry box_size 2 1;
  Ok (str_value x0 ++ lit " " ++ str_value x1 ++ lit " xlo xhi" ++ [newline]
      ++ str_value y0 ++ lit " " ++ str_value y1 ++ lit " ylo yhi" ++ [newline]
      ++ str_value z0 ++ lit " " ++ str_value z1 ++ lit " zlo zhi").

Definition __str__ (self : t) : result str :=
  let lines := [lit "Data file generated by pymatgen" ++ [newline]] in
  let lines := lines ++ [str_nat (natoms self) ++ lit " atoms" ++ [newline]] in
  let lines :=
    lines ++ [str_nat (natom_types self) ++ lit " atom types" ++ [newline]] in
  box ← box_text (box_size self);
  let lines := lines ++ [box] in
  let lines := set_lines_from_list lines "Masses" (atomic_masses self) in
  let lines := set_lines_from_list lines "Atoms" (atoms_data self) in
  Ok (join [newline] lines).

(** The row appended for a line that matches the mass pattern. *)
Definition mass_row (m : list str) : result (list value) :=
  g1 ← group m 1; i ← py_int g1;
  g2 ← group m 2; a ← py_float g2;
  Ok [VInt i; VFloat a].

(** The row appended for a line that matches the box pattern. *)
Definition box_row (m : list str) : result (list value) :=
  g1 ← group m 1; a ← py_float g1;
  g2 ← group m 2; b ← py_float g2;
  Ok [VFloat a; VFloat b].

(** The row appended for a line that matches the atoms pattern. *)
Definition atom_row (m : list str) : result (list value) :=
  ints ← mapM py_int (take 3 m);
  floats ← mapM py_float (drop 3 m);
  Ok (map VInt ints ++ map VFloat floats).

(** The body of the loop of [from_file] over the lines. *)
Definition from_file_line (read_charge : bool) (line : str)
    (st : list (list value) * list (list value) * list (list value))
  : result (list (list value) * list (list value) * list (list value)) :=
  let '(atomic_masses, box_size, atoms_data) := st in
  let atoms_pattern := if read_charge then atoms_pattern else atoms_pattern_atomic in
  atomic_masses ←
    match search masses_pattern line with
    | Some m => row ← mass_row m; Ok (atomic_masses ++ [row])
    | None => Ok atomic_masses
    end;
  box_size ←
    match search box_pattern_basic line with
    | Some m => row ← box_row m; Ok (box_size ++ [row])
    | None => Ok box_size
    end;
  atoms_data ←
    match search atoms_pattern line with
    | Some m => row ← atom_row m; Ok (atoms_data ++ [row])
    | None => Ok atoms_data
    end;
  Ok (atomic_masses, box_size, atoms_data).

(** [from_file], on the text of the file. *)
Definition from_file (data_file : str) (read_charge : bool) : result t :=
  '(atomic_masses, box_size, atoms_data) ←
    for_each (readlines data_file) (from_file_line read_charge) ([], [], []);
  Ok (__init__ box_size atomic_masses atoms_data).

End Class.
End LammpsData.

(** ** class LammpsForceFieldData(LammpsData) *)

Module LammpsForceFieldData.
Import LammpsData.
Section Class.
Context `{FM : FloatModel}.

(** A force field: its attributes by name.  An attribute holds [None] or a
    dict from labels to coefficient tuples, given by its items in order. *)
Definition ForceField : Type :=
  gmap string (option (list (label * list value))).

(** A site of a molecule: [site.specie.symbol], [site.x], [site.y], [site.z]. *)
Record Site : Type := { symbol : string; x : float; y : float; z : float }.

(** One bonded interaction of a topology, [[i, j, ..., label]]: the local
    atom indices [param[:-1]] and the type label [param[-1]]. *)
Definition interaction : Type := list Z * label.

(** A topology: [charges] ([None]: no such attribute; an attribute holding
    [None] is the empty list, both are falsy) and the interaction lists by
    attribute name ([bonds], [angles], [dihedrals], [imdihedrals]), each
    holding [None] or a list. *)
Record Topology : Type := {
  charges : option (list value);
  params : gmap string (option (list interaction));
}.

(** ** ParameterCoeffMapper: [get_param_coeff] *)

Definition get_param_coeff (forcefield : ForceField) (param_name : string)
  : result (list (list value) * gmap label Z) :=
  match forcefield !! param_name with
  | Some param =>
      let init : list (list value) * gmap label Z := ([], ∅) in
      match param with
      | Some ((_ :: _) as items) =>
          Ok (foldl
                (λ '(param_coeffs, param_map) '(i, item),
                   (param_coeffs ++ [VInt (Z.of_nat i + 1) :: item.2],
                    <[item.1 := (Z.of_nat i + 1)%Z]> param_map))
                init (enumerate items))
      | _ => Ok init
      end
  | None => Raise AttributeError
  end.

(** ** FlatAtomMapper, assembled mode: [get_atoms_data] *)

(** The innermost loop: the atoms of one replica. *)
Definition replica_atoms (mol_type num_mol_id natoms shift_ : nat)
    (atom_to_mol : gmap nat (nat * nat)) : gmap nat (nat * nat) * list nat :=
  foldl
    (λ '(atom_to_mol, tmp) mol_atom_id,
       let atom_id := num_mol_id * natoms + mol_atom_id + shift_ in
       (<[atom_id := (mol_type, mol_atom_id)]> atom_to_mol, tmp ++ [atom_id]))
    (atom_to_mol, []) (range natoms).

(** The first loop nest: [atom_to_mol], [molid_to_atomid] and [shift_]. *)
Definition atom_maps (mols : list (list Site)) (mols_number : list nat)
  : result (gmap nat (nat * nat) * list (list nat) * nat) :=
  let nmols := length mols in
  for_each (range nmols)
    (λ mol_type '(atom_to_mol, molid_to_atomid, shift_),
       mol ← or_raise IndexError (mols !! mol_type);
       let natoms := length mol in
       n ← or_raise IndexError (mols_number !! mol_type);
       let '(atom_to_mol, molid_to_atomid) :=
         foldl
           (λ '(atom_to_mol, molid_to_atomid) num_mol_id,
              let '(atom_to_mol, tmp) :=
                replica_atoms mol_type num_mol_id natoms shift_ atom_to_mol in
              (atom_to_mol, molid_to_atomid ++ [tmp]))
           (atom_to_mol, molid_to_atomid) (range n) in
       Ok (atom_to_mol, molid_to_atomid, shift_ + length mol * n))
    (∅, [], 0).

(** The charge of an atom, from the topology of its molecule type. *)
Definition atom_charge (topologies : list Topology) (mol_type mol_atom_id : nat)
  : result value :=
  t0 ← or_raise IndexError (topologies !! 0);
  match charges t0 with
  | None => Ok (VFloat float_zero)
  | Some _ =>
      t ← or_raise IndexError (topologies !! (mol_type - 1));
      match charges t with
      | None => Raise AttributeError
      | Some [] => Ok (VFloat float_zero)
      | Some cs => or_raise IndexError (cs !! (mol_atom_id - 1))
      end
  end.

Definition get_atoms_data (mols : list (list Site)) (mols_number : list nat)
    (molecule : list Site) (atomic_masses_dict : gmap string (list value))
    (topologies : list Topology)
  : result (list (list value) * list (list nat)) :=
  '(atom_to_mol, molid_to_atomid, _) ← atom_maps mols mols_number;
  atoms_data ←
    for_each (enumerate molecule)
      (λ '(i, site) atoms_data,
         entry ← or_raise KeyError (atomic_masses_dict !! symbol site);
         atom_type ← or_raise IndexError (entry !! 0);
         let atom_id := i + 1 in
         m ← or_raise KeyError (atom_to_mol !! i);
         let mol_type := m.1 + 1 in
         let mol_atom_id := m.2 + 1 in
         charge ← atom_charge topologies mol_type mol_atom_id;
         Ok (atoms_data ++
               [[VInt (Z.of_nat atom_id); VInt (Z.of_nat mol_type); atom_type;
                 charge; VFloat (x site); VFloat (y site); VFloat (z site)]]))
      [];
  Ok (atoms_data, molid_to_atomid).

(** ** ParameterRecordMapper: [get_param_data] *)

(** [getattr(topologies[mol_type], param_name)] followed by a use as a list. *)
Definition topology_params (topologies : list Topology) (mol_type : nat)
    (param_name : string) : result (list interaction) :=
  t ← or_raise IndexError (topologies !! mol_type);
  o ← or_raise AttributeError (params t !! param_name);
  or_raise TypeError o.

(** The map [param_to_mol], as its items:
    [param_id -> (global mol id, mol_type, local param id)]. *)
Definition param_to_mol_items (param_name : string) (mols : list (list Site))
    (mols_number : list nat) (topologies : list Topology)
  : result (list (nat * (nat * nat * nat))) :=
  let nmols := length mols in
  '(_, param_to_mol, _) ←
    for_each (range nmols)
      (λ mol_type '(mol_id, param_to_mol, shift_),
         param_obj ← topology_params topologies mol_type param_name;
         let nparams := length param_obj in
         n ← or_raise IndexError (mols_number !! mol_type);
         let '(mol_id, param_to_mol) :=
           foldl
             (λ '(mol_id, param_to_mol) num_mol_id,
                let mol_id := mol_id + 1 in
                (mol_id,
                 foldl
                   (λ param_to_mol mol_param_id,
                      let param_id := num_mol_id * nparams + mol_param_id + shift_ in
                      dict_set param_to_mol param_id
                        (mol_id - 1, mol_type, mol_param_id))
                   param_to_mol (range nparams)))
             (mol_id, param_to_mol) (range n) in
         Ok (mol_id, param_to_mol, shift_ + nparams * n))
      (0, [], 0);
  Ok param_to_mol.

(** The key under which a type label is found in the map: the label as
    given, else the label reversed, else [None]. *)
Definition lookup_key (param_map : gmap label Z) (param_type : label)
  : option label :=
  let param_type_reversed := reverse param_type in
  if decide (is_Some (param_map !! param_type)) then Some param_type
  else if decide (is_Some (param_map !! param_type_reversed))
       then Some param_type_reversed
       else None.

(** [if key:] a key that is [None] or the empty tuple is falsy. *)
Definition truthy (key : option label) : bool :=
  match key with Some (_ :: _) => true | _ => false end.

(** The coefficient id an interaction of type [param_type] is emitted
    with: [param_map[key]] when [key] is truthy, nothing otherwise. *)
Definition resolve (param_map : gmap label Z) (param_type : label)
  : result (option Z) :=
  let key := lookup_key param_map param_type in
  if truthy key then
    param_type_id ← or_raise KeyError (key ≫= (param_map !!.));
    Ok (Some param_type_id)
  else Ok None.

Definition get_param_data (param_name : string) (param_map : gmap label Z)
    (mols : list (list Site)) (mols_number : list nat)
    (topologies : list Topology) (molid_to_atomid : list (list nat))
  : result (list (list value)) :=
  t0 ← or_raise IndexError (topologies !! 0);
  match params t0 !! param_name with
  | Some (Some (_ :: _)) =>
      param_to_mol ← param_to_mol_items param_name mols mols_number topologies;
      '(_, param_data) ←
        for_each param_to_mol
          (λ '(param_id, (mol_id, mol_type, mol_param_id)) '(skip, param_data),
             param_obj ← topology_params topologies mol_type param_name;
             param ← or_raise IndexError (param_obj !! mol_param_id);
             param_atomids ←
               for_each param.1
                 (λ atomid param_atomids,
                    atomids ← or_raise IndexError (molid_to_atomid !! mol_id);
                    global_atom_id ← py_index atomids atomid;
                    Ok (param_atomids ++ [VInt (Z.of_nat global_atom_id + 1)]))
                 [];
             let param_type := param.2 in
             resolved ← resolve param_map param_type;
             match resolved with
             | Some param_type_id =>
                 Ok (skip,
                     param_data ++
                       [[VInt (Z.of_nat param_id + 1 - Z.of_nat skip);
                         VInt param_type_id] ++ param_atomids])
             | None => Ok (skip + 1, param_data)
             end)
          (0, []);
      Ok param_data
  | _ => Ok []
  end.


(** ** The record and its constructor *)

Record t : Type := {
  base : LammpsData.t;
  nbond_types : nat;
  nangle_types : nat;
  ndih_types : nat;
  nimdih_types : nat;
  nbonds : nat;
  nangles : nat;
  ndih : nat;
  nimdihs : nat;
  pair_coeffs : list (list value);
  bond_coeffs : list (list value);
  angle_coeffs : list (list value);
  dihedral_coeffs : list (list value);
  improper_coeffs : list (list value);
  bonds_data : list (list value);
  angles_data : list (list value);
  dihedrals_data : list (list value);
  imdihedrals_data : list (list value);
}.

Definition __init__ (box_size atomic_masses pair_coeffs bond_coeffs angle_coeffs
    dihedral_coeffs improper_coeffs atoms_data bonds_data angles_data
    dihedrals_data imdihedrals_data : list (list value)) : t :=
  {| base := LammpsData.__init__ box_size atomic_masses atoms_data;
     nbond_types := length bond_coeffs;
     nangle_types := length angle_coeffs;
     ndih_types := length dihedral_coeffs;
     nimdih_types := length improper_coeffs;
     nbonds := length bonds_data;
     nangles := length angles_data;
     ndih := length dihedrals_data;
     nimdihs := length imdihedrals_data;
     pair_coeffs := pair_coeffs;
     bond_coeffs := bond_coeffs;
     angle_coeffs := angle_coeffs;
     dihedral_coeffs := dihedral_coeffs;
     improper_coeffs := improper_coeffs;
     bonds_data := bonds_data;
     angles_data := angles_data;
     dihedrals_data := dihedrals_data;
     imdihedrals_data := imdihedrals_data |}.

(** ** SectionWriter: [__str__] *)

(** The title and the count lines: [lines] up to the box. *)
Definition header_lines (self : t) : list str :=
  let lines := [lit "Data file generated by pymatgen" ++ [newline]] in
  let lines := lines ++ [str_nat (natoms (base self)) ++ lit " atoms"] in
  let lines := lines ++ [str_nat (nbonds self) ++ lit " bonds"] in
  let lines := lines ++ [str_nat (nangles self) ++ lit " angles"] in
  let lines :=
    if decide (0 < ndih self)
    then lines ++ [str_nat (ndih self) ++ lit " dihedrals"] else lines in
  let lines :=
    if decide (0 < nimdihs self)
    then lines ++ [str_nat (nimdihs self) ++ lit " impropers"] else lines in
  let lines :=
    lines ++ [[newline] ++ str_nat (natom_types (base self)) ++ lit " atom types"] in
  let lines := lines ++ [str_nat (nbond_types self) ++ lit " bond types"] in
  let lines := lines ++ [str_nat (nangle_types self) ++ lit " angle types"] in
  let lines :=
    if decide (0 < ndih self)
    then lines ++ [str_nat (ndih_types self) ++ lit " dihedral types"]
    else lines in
  let lines :=
    if decide (0 < nimdihs self)
    then lines ++ [str_nat (nimdih_types self) ++ lit " improper types"]
    else lines in
  lines.

(** The section blocks: [lines] after the box. *)
Definition section_lines (self : t) (lines : list str) : list str :=
  let lines := set_lines_from_list lines "Masses" (atomic_masses (base self)) in
  let lines := set_lines_from_list lines "Pair Coeffs" (pair_coeffs self) in
  let lines := set_lines_from_list lines "Bond Coeffs" (bond_coeffs self) in
  let lines := set_lines_from_list lines "Angle Coeffs" (angle_coeffs self) in
  let lines :=
    if decide (0 < ndih self)
    then set_lines_from_list lines "Dihedral Coeffs" (dihedral_coeffs self)
    else lines in
  let lines :=
    if decide (0 < nimdihs self)
    then set_lines_from_list lines "Improper Coeffs" (improper_coeffs self)
    else lines in
  let lines := set_lines_from_list lines "Atoms" (atoms_data (base self)) in
  let lines := set_lines_from_list lines "Bonds" (bonds_data self) in
  let lines := set_lines_from_list lines "Angles" (angles_data self) in
  let lines :=
    if decide (0 < ndih self)
    then set_lines_from_list lines "Dihedrals" (dihedrals_data self)
    else lines in
  let lines :=
    if decide (0 < nimdihs self)
    then set_lines_from_list lines "Impropers" (imdihedrals_data self)
    else lines in
  lines.

Definition __str__ (self : t) : result str :=
  let lines := header_lines self in
  box ← box_text (box_size (base self));
  let lines := lines ++ [[newline] ++ box] in
  let lines := section_lines self lines in
  Ok (join [newline] lines).

(** ** SectionParser: [from_file] *)

(** The local variables of [from_file].  The expected counts are unbound
    ([None]) until a count header assigns them. *)
Record locals : Type := Locals {
  v_natom_types : option Z;
  v_npair_types : option Z;
  v_nbond_types : option Z;
  v_nangle_types : option Z;
  v_ndihedral_types : option Z;
  v_nimproper_types : option Z;
  v_atomic_masses : list (list value);
  v_box_size : list (list value);
  v_pair_coeffs : list (list value);
  v_bond_coeffs : list (list value);
  v_angle_coeffs : list (list value);
  v_dihedral_coeffs : list (list value);
  v_improper_coeffs : list (list value);
  v_atoms_data : list (list value);
  v_bonds_data : list (list value);
  v_angles_data : list (list value);
  v_dihedral_data : list (list value);
  v_imdihedral_data : list (list value);
  v_read_pair_coeffs : bool;
  v_read_bond_coeffs : bool;
  v_read_angle_coeffs : bool;
  v_read_dihedral_coeffs : bool;
  v_read_improper_coeffs : bool;
}.

Definition initial : locals :=
  Locals None None None None None None [] [] [] [] [] [] [] [] [] [] [] []
         false false false false false.

(** [False if len(coeffs) >= ntypes else True]; an unbound [ntypes] is a
    NameError. *)
Definition keep_reading (coeffs : list (list value)) (ntypes : option Z)
  : result bool :=
  n ← or_raise NameError ntypes;
  Ok (negb (Z.of_nat (length coeffs) >=? n)%Z).

(** The body of [if read_x_coeffs:] for the pair, dihedral and improper
    coefficients: the line is split into tokens. *)
Definition read_tokens (coeffs : list (list value)) (ntypes : option Z)
    (line : str) : result (list (list value) * bool) :=
  match split line with
  | [] => Ok (coeffs, true)
  | t0 :: ts =>
      i ← py_int t0;
      vs ← mapM py_float ts;
      let coeffs := coeffs ++ [VInt i :: map VFloat vs] in
      reading ← keep_reading coeffs ntypes;
      Ok (coeffs, reading)
  end.

(** The body of [if read_x_coeffs:] for the bond and angle coefficients:
    the line has to match the general coefficient pattern. *)
Definition read_general (coeffs : list (list value)) (ntypes : option Z)
    (line : str) : result (list (list value) * bool) :=
  match search general_coeff_pattern line with
  | Some m =>
      g1 ← group m 1; i ← py_int g1;
      g2 ← group m 2; a ← py_float g2;
      g3 ← group m 3; b ← py_float g3;
      let coeffs := coeffs ++ [[VInt i; VFloat a; VFloat b]] in
      reading ← keep_reading coeffs ntypes;
      Ok (coeffs, reading)
  | None => Ok (coeffs, true)
  end.

(** [if pattern.search(line) and atoms_data: data.append(ints)] *)
Definition read_bonded (pattern : list rx) (atoms_data data : list (list value))
    (line : str) : result (list (list value)) :=
  match search pattern line, atoms_data with
  | Some m, _ :: _ => ints ← mapM py_int m; Ok (data ++ [map VInt ints])
  | _, _ => Ok data
  end.

(** The count header: [n] when the family named on the line is [family],
    the old value otherwise. *)
Definition read_count (m : list str) (family : string) (old : option Z)
  : result (option Z) :=
  g2 ← group m 2;
  if decide (g2 = lit family)
  then g1 ← group m 1; n ← py_int g1; Ok (Some n)
  else Ok old.

(** The body of the loop of [from_file] over the lines. *)
Definition from_file_line (line : str) (st : locals) : result locals :=
  let 'Locals natom_types npair_types nbond_types nangle_types ndihedral_types
         nimproper_types atomic_masses box_size pair_coeffs bond_coeffs
         angle_coeffs dihedral_coeffs improper_coeffs atoms_data bonds_data
         angles_data dihedral_data imdihedral_data read_pair_coeffs
         read_bond_coeffs read_angle_coeffs read_dihedral_coeffs
         read_improper_coeffs := st in
  '(natom_types, npair_types, nbond_types, nangle_types, ndihedral_types,
    nimproper_types) ←
    match search types_pattern line with
    | Some m =>
        natom_types ← read_count m "atom" natom_types;
        npair_types ← read_count m "atom" npair_types;
        nbond_types ← read_count m "bond" nbond_types;
        nangle_types ← read_count m "angle" nangle_types;
        ndihedral_types ← read_count m "dihedral" ndihedral_types;
        nimproper_types ← read_count m "improper" nimproper_types;
        Ok (natom_types, npair_types, nbond_types, nangle_types,
            ndihedral_types, nimproper_types)
    | None =>
        Ok (natom_types, npair_types, nbond_types, nangle_types,
            ndihedral_types, nimproper_types)
    end;
  atomic_masses ←
    match search masses_pattern line with
    | Some m => row ← mass_row m; Ok (atomic_masses ++ [row])
    | None => Ok atomic_masses
    end;
  box_size ←
    match search box_pattern line with
    | Some m => row ← box_row m; Ok (box_size ++ [row])
    | None => Ok box_size
    end;
  let pack read_pair_coeffs read_bond_coeffs read_angle_coeffs
        read_dihedral_coeffs read_improper_coeffs pair_coeffs bond_coeffs
        angle_coeffs dihedral_coeffs improper_coeffs atoms_data bonds_data
        angles_data dihedral_data :=
    Locals natom_types npair_types nbond_types nangle_types ndihedral_types
      nimproper_types atomic_masses box_size pair_coeffs bond_coeffs
      angle_coeffs dihedral_coeffs improper_coeffs atoms_data bonds_data
      angles_data dihedral_data imdihedral_data read_pair_coeffs
      read_bond_coeffs read_angle_coeffs read_dihedral_coeffs
      read_improper_coeffs in
  if contains (lower (lit "Pair Coeffs")) (lower line) then
    Ok (pack true read_bond_coeffs read_angle_coeffs read_dihedral_coeffs
          read_improper_coeffs pair_coeffs bond_coeffs angle_coeffs
          dihedral_coeffs improper_coeffs atoms_data bonds_data angles_data
          dihedral_data)
  else
  '(pair_coeffs, read_pair_coeffs) ←
    (if read_pair_coeffs then read_tokens pair_coeffs npair_types line
     else Ok (pair_coeffs, read_pair_coeffs));
  if contains (lower (lit "Bond Coeffs")) (lower line) then
    Ok (pack read_pair_coeffs true read_angle_coeffs read_dihedral_coeffs
          read_improper_coeffs pair_coeffs bond_coeffs angle_coeffs
          dihedral_coeffs improper_coeffs atoms_data bonds_data angles_data
          dihedral_data)
  else
  '(bond_coeffs, read_bond_coeffs) ←
    (if read_bond_coeffs then read_general bond_coeffs nbond_types line
     else Ok (bond_coeffs, read_bond_coeffs));
  if contains (lower (lit "Angle Coeffs")) (lower line) then
    Ok (pack read_pair_coeffs read_bond_coeffs true read_dihedral_coeffs
          read_improper_coeffs pair_coeffs bond_coeffs angle_coeffs
          dihedral_coeffs improper_coeffs atoms_data bonds_data angles_data
          dihedral_data)
  else
  '(angle_coeffs, read_angle_coeffs) ←
    (if read_angle_coeffs then read_general angle_coeffs nangle_types line
     else Ok (angle_coeffs, read_angle_coeffs));
  if contains (lower (lit "Dihedral Coeffs")) (lower line) then
    Ok (pack read_pair_coeffs read_bond_coeffs read_angle_coeffs true
          read_improper_coeffs pair_coeffs bond_coeffs angle_coeffs
          dihedral_coeffs improper_coeffs atoms_data bonds_data angles_data
          dihedral_data)
  else
  '(dihedral_coeffs, read_dihedral_coeffs) ←
    (if read_dihedral_coeffs
     then read_tokens dihedral_coeffs ndihedral_types line
     else Ok (dihedral_coeffs, read_dihedral_coeffs));
  if contains (lower (lit "Improper Coeffs")) (lower line) then
    Ok (pack read_pair_coeffs read_bond_coeffs read_angle_coeffs
          read_dihedral_coeffs true pair_coeffs bond_coeffs angle_coeffs
          dihedral_coeffs improper_coeffs atoms_data bonds_data angles_data
          dihedral_data)
  else
  '(improper_coeffs, read_improper_coeffs) ←
    (if read_improper_coeffs
     then read_tokens improper_coeffs nimproper_types line
     else Ok (improper_coeffs, read_improper_coeffs));
  atoms_data ←
    match search atoms_pattern line with
    | Some m => row ← atom_row m; Ok (atoms_data ++ [row])
    | None => Ok atoms_data
    end;
  bonds_data ← read_bonded bond_data_pattern atoms_data bonds_data line;
  angles_data ← read_bonded angle_data_pattern atoms_data angles_data line;
  dihedral_data ←
    read_bonded dihedral_data_pattern atoms_data dihedral_data line;
  Ok (pack read_pair_coeffs read_bond_coeffs read_angle_coeffs
        read_dihedral_coeffs read_improper_coeffs pair_coeffs bond_coeffs
        angle_coeffs dihedral_coeffs improper_coeffs atoms_data bonds_data
        angles_data dihedral_data).

(** [from_file], on the text of the file. *)
Definition from_file (data_file : str) : result t :=
  st ← for_each (readlines data_file) from_file_line initial;
  Ok (__init__ (v_box_size st) (v_atomic_masses st) (v_pair_coeffs st)
        (v_bond_coeffs st) (v_angle_coeffs st) (v_dihedral_coeffs st)
        (v_improper_coeffs st) (v_atoms_data st) (v_bonds_data st)
        (v_angles_data st) (v_dihedral_data st) (v_imdihedral_data st)).

End Class.
End LammpsForceFieldData.

(** * Part II: properties *)

Module LD := LammpsData.
Module FF := LammpsForceFieldData.

(** ** Counts of a constructed record *)

Section Counts.
Context `{FM : FloatModel}.

(** The counts of a record agree with its tables. *)
Definition consistent_base (r : LD.t) : Prop :=
  LD.natoms r = length (LD.atoms_data r)
  ∧ LD.natom_types r = length (LD.atomic_masses r).





End Counts.

(** ** ParameterCoeffMapper *)

Section ParamCoeff.
Context `{FM : FloatModel}.

(** The loop of [get_param_coeff], started at index [k]. *)
Lemma coeff_loop_spec (items : list (label * list value)) :
  ∀ (k : nat) (cs : list (list value)) (m : gmap label Z),
    let r :=
      foldl
        (λ '(param_coeffs, param_map) '(i, item),
           (param_coeffs ++ [VInt (Z.of_nat i + 1) :: item.2],
            <[item.1 := (Z.of_nat i + 1)%Z]> param_map))
        (cs, m) (zip (seq k (length items)) items) in
    r.1 = cs ++ imap (λ i item, VInt (Z.of_nat (k + i) + 1) :: item.2) items
    ∧ (∀ key, key ∉ items.*1 → r.2 !! key = m !! key)
    ∧ (∀ key, key ∈ items.*1 → is_Some (r.2 !! key))
    ∧ (NoDup items.*1 →
       ∀ i key v, items !! i = Some (key, v) →
                  r.2 !! key = Some (Z.of_nat (k + i) + 1)%Z).
Proof.
  induction items as [|[key0 v0] items IH]; intros k cs m; simpl.
  - rewrite app_nil_r. repeat split; try done.
    intros key Hin. by apply elem_of_nil in Hin.
  - specialize (IH (S k) (cs ++ [VInt (Z.of_nat k + 1) :: v0])
                   (<[key0 := (Z.of_nat k + 1)%Z]> m)).
    simpl in IH. destruct IH as (IH1 & IH2 & IH3 & IH4).
    split; [|split; [|split]].
    + rewrite IH1, <- app_assoc. simpl. do 2 f_equal.
      * by rewrite Nat.add_0_r.
      * apply imap_ext. intros i x _. simpl. do 3 f_equal. lia.
    + intros key Hkey. apply not_elem_of_cons in Hkey as [Hne Hkey].
      rewrite IH2 by done. by rewrite lookup_insert_ne.
    + intros key Hkey. destruct (decide (key ∈ items.*1)) as [Hin|Hnin].
      * by apply IH3.
      * rewrite IH2 by done. apply elem_of_cons in Hkey as [->|Hin]; [|done].
        rewrite lookup_insert_eq. by eexists.
    + intros Hnd i key v Hi. apply NoDup_cons in Hnd as [Hfresh Hnd].
      destruct i as [|i]; simpl in Hi.
      * injection Hi as -> ->. rewrite IH2 by done.
        rewrite lookup_insert_eq. by rewrite Nat.add_0_r.
      * rewrite (IH4 Hnd i key v Hi). do 3 f_equal. lia.
Qed.

(** C8: [get_param_coeff] raises (an AttributeError) exactly when the
    force field has no attribute of the requested name; a family that is
    present and empty gives an empty table and an empty map; a family with
    entries gives the rows [[i + 1] + values] in iteration order and a map
    whose keys are the labels, each label sent to its index plus one. *)
Theorem get_param_coeff_spec (forcefield : FF.ForceField) (param_name : string) :
  (FF.get_param_coeff forcefield param_name = Raise AttributeError
   ↔ forcefield !! param_name = None)
  ∧ (∀ e, FF.get_param_coeff forcefield param_name = Raise e →
          forcefield !! param_name = None)
  ∧ (forcefield !! param_name = Some None
     ∨ forcefield !! param_name = Some (Some []) →
     FF.get_param_coeff forcefield param_name = Ok ([], ∅))
  ∧ (∀ items, forcefield !! param_name = Some (Some items) →
       ∃ param_coeffs param_map,
         FF.get_param_coeff forcefield param_name = Ok (param_coeffs, param_map)
         ∧ param_coeffs = imap (λ i item, VInt (Z.of_nat i + 1) :: item.2) items
         ∧ dom param_map = list_to_set items.*1
         ∧ (NoDup items.*1 →
            ∀ i key v, items !! i = Some (key, v) →
                       param_map !! key = Some (Z.of_nat i + 1)%Z)).
Proof.
  unfold FF.get_param_coeff.
  split; [|split; [|split]].
  - destruct (forcefield !! param_name) as [[[|item items]|]|]; split; done.
  - intros e. by destruct (forcefield !! param_name) as [[[|item items]|]|].
  - by intros [-> | ->].
  - intros items ->. destruct items as [|item items].
    { exists [], ∅. split; [done|]. split; [done|]. split; [|done].
      by rewrite dom_empty_L. }
    unfold enumerate.
    pose proof (coeff_loop_spec (item :: items) 0 [] ∅) as Hloop.
    cbv zeta in Hloop. revert Hloop.
    generalize (item :: items) as l. intros l.
    destruct (foldl _ _ _) as [cs m]. simpl.
    intros (H1 & H2 & H3 & H4). exists cs, m.
    split; [done|]. split; [done|]. split; [|done].
    apply set_eq. intros key. rewrite elem_of_dom, elem_of_list_to_set.
    split.
    + intros Hsome. destruct (decide (key ∈ l.*1)) as [|Hnin]; [done|].
      rewrite H2 in Hsome by done. rewrite lookup_empty in Hsome.
      by destruct Hsome.
    + apply H3.
Qed.

End ParamCoeff.

(** ** Resolution of a type label *)

(** C7 (as the code has it): when label [l] is registered with id [c], an
    interaction declared with the reversed label resolves to [c], unless
    the reversed label is registered itself: the label as given is tried
    first, so it then resolves to the reversed label's own id. *)
Theorem reversed_label_resolves (param_map : gmap label Z) (l : label) (c : Z) :
  param_map !! l = Some c →
  l ≠ [] →
  FF.resolve param_map (reverse l)
  = Ok (Some (default c (param_map !! reverse l))).
Proof.
  intros Hl Hne. unfold FF.resolve, FF.lookup_key.
  rewrite reverse_involutive.
  assert (Hrev : ∃ a k, reverse l = a :: k).
  { destruct (reverse l) as [|a k] eqn:E; [|by eauto].
    apply (f_equal reverse) in E. rewrite reverse_involutive in E.
    by destruct Hne. }
  destruct Hrev as (a & k & Hrev).
  destruct (param_map !! reverse l) as [c'|] eqn:Hr.
  - rewrite decide_True by (by eexists). rewrite Hrev. simpl.
    rewrite <- Hrev, Hr. done.
  - rewrite decide_False by (by intros [? ?]).
    rewrite decide_True by (by eexists).
    destruct l as [|b l']; [done|]. simpl. by rewrite Hl.
Qed.

Lemma reversed_label_resolves_witness :
  let param_map : gmap label Z := {[ ["c1"; "c2"]%string := 1%Z ]} in
  let l : label := ["c1"; "c2"]%string in
  param_map !! l = Some 1%Z
  ∧ l ≠ []
  ∧ FF.resolve param_map (reverse l)
    = Ok (Some (default 1%Z (param_map !! reverse l))).
Proof.
  intros param_map l.
  assert (H1 : param_map !! l = Some 1%Z) by reflexivity.
  assert (H2 : l ≠ []) by discriminate.
  exact (conj H1 (conj H2 (reversed_label_resolves param_map l 1%Z H1 H2))).
Defined.

(** C7 fails as stated: with both orders registered, the reversed label
    resolves to its own id, not to the id of the label it reverses. *)
Lemma reversed_label_own_id :
  let param_map : gmap label Z :=
    <[ ["b"; "a"]%string := 2%Z ]> {[ ["a"; "b"]%string := 1%Z ]} in
  param_map !! (["a"; "b"]%string : label) = Some 1%Z
  ∧ FF.resolve param_map (reverse ["a"; "b"]%string) = Ok (Some 2%Z).
Proof. split; vm_compute; reflexivity. Qed.

(** ** SectionWriter: the count lines *)

Section Writer.
Context `{FM : FloatModel}.












End Writer.


(** ** Loops *)

Lemma for_each_app {A S : Type} (l1 l2 : list A) (body : A → S → result S) (s : S) :
  for_each (l1 ++ l2) body s = s' ← for_each l1 body s; for_each l2 body s'.
Proof.
  revert s. induction l1 as [|a l1 IH]; intros s; simpl; [done|].
  destruct (body a s) as [s1|e]; simpl; [apply IH|done].
Qed.

Lemma bind_Ok {A B : Type} (m : result A) (f : A → result B) (b : B) :
  m ≫= f = Ok b ↔ ∃ a, m = Ok a ∧ f a = Ok b.
Proof.
  destruct m as [a|e]; simpl; split.
  - intros H. by exists a.
  - by intros (a' & [= <-] & H).
  - done.
  - by intros (a' & [=] & _).
Qed.

Lemma or_raise_Ok {A : Type} (e : exn) (o : option A) (a : A) :
  or_raise e o = Ok a ↔ o = Some a.
Proof. destruct o; simpl; split; congruence. Qed.

(** ** FlatAtomMapper: the translation from local to global atoms *)

Section AtomTranslation.
Context `{FM : FloatModel}.

(** The positions (0-based, the atom id minus one) of the atoms of the
    replicas, by global molecule, for molecule types of [sizes] atoms laid
    out from position [shift]. *)
Fixpoint translation (shift : nat) (sizes mols_number : list nat)
  : list (list nat) :=
  match sizes, mols_number with
  | natoms :: sizes', n :: nums' =>
      ((λ j, seq (shift + j * natoms) natoms) <$> seq 0 n)
      ++ translation (shift + natoms * n) sizes' nums'
  | _, _ => []
  end.

(** The number of atoms of the assembly: the sum of [r_i * n_i]. *)
Fixpoint total_atoms (sizes mols_number : list nat) : nat :=
  match sizes, mols_number with
  | natoms :: sizes', n :: nums' => natoms * n + total_atoms sizes' nums'
  | _, _ => 0
  end.

(** The number of replicas: the sum of [r_i]. *)
Fixpoint total_mols (sizes mols_number : list nat) : nat :=
  match sizes, mols_number with
  | _ :: sizes', n :: nums' => n + total_mols sizes' nums'
  | _, _ => 0
  end.

(** Where the atom at position [a] comes from: (global molecule,
    molecule type, local atom index), all 0-based. *)
Fixpoint locate (g t shift : nat) (sizes mols_number : list nat) (a : nat)
  : option (nat * nat * nat) :=
  match sizes, mols_number with
  | natoms :: sizes', n :: nums' =>
      if decide (shift ≤ a < shift + natoms * n)
      then Some (g + (a - shift) `div` natoms, t, (a - shift) `mod` natoms)
      else locate (g + n) (S t) (shift + natoms * n) sizes' nums' a
  | _, _ => None
  end.

Lemma replica_atoms_loop (t j natoms shift k : nat) (a2m : gmap nat (nat * nat)) :
  let r :=
    foldl
      (λ '(atom_to_mol, tmp) mol_atom_id,
         let atom_id := j * natoms + mol_atom_id + shift in
         (<[atom_id := (t, mol_atom_id)]> atom_to_mol, tmp ++ [atom_id]))
      (a2m, []) (seq 0 k) in
  r.2 = seq (shift + j * natoms) k
  ∧ ∀ a, r.1 !! a =
         if decide (shift + j * natoms ≤ a < shift + j * natoms + k)
         then Some (t, a - (shift + j * natoms)) else a2m !! a.
Proof.
  induction k as [|k IH].
  - simpl. split; [done|]. intros a. by rewrite decide_False by lia.
  - rewrite !seq_S, foldl_snoc. simpl.
    destruct (foldl _ _ _) as [m tmp]. simpl in *. destruct IH as [-> IH].
    split.
    + do 2 f_equal. lia.
    + intros a. rewrite lookup_insert, IH.
      destruct (decide (j * natoms + k + shift = a)) as [<-|Hne].
      * rewrite decide_True by lia. do 2 f_equal. lia.
      * destruct (decide (shift + j * natoms ≤ a < shift + j * natoms + k)).
        -- by rewrite decide_True by lia.
        -- by rewrite decide_False by lia.
Qed.

Lemma replica_atoms_spec (t j natoms shift : nat) (a2m : gmap nat (nat * nat)) :
  let r := FF.replica_atoms t j natoms shift a2m in
  r.2 = seq (shift + j * natoms) natoms
  ∧ ∀ a, r.1 !! a =
         if decide (shift + j * natoms ≤ a < shift + j * natoms + natoms)
         then Some (t, a - (shift + j * natoms)) else a2m !! a.
Proof. apply replica_atoms_loop. Qed.

Lemma replicas_spec (t natoms shift n : nat) (a2m : gmap nat (nat * nat))
    (m2a : list (list nat)) :
  let r :=
    foldl
      (λ '(atom_to_mol, molid_to_atomid) num_mol_id,
         let '(atom_to_mol, tmp) :=
           FF.replica_atoms t num_mol_id natoms shift atom_to_mol in
         (atom_to_mol, molid_to_atomid ++ [tmp]))
      (a2m, m2a) (range n) in
  r.2 = m2a ++ ((λ j, seq (shift + j * natoms) natoms) <$> seq 0 n)
  ∧ ∀ a, r.1 !! a =
         if decide (shift ≤ a < shift + natoms * n)
         then Some (t, (a - shift) `mod` natoms) else a2m !! a.
Proof.
  unfold range. induction n as [|n IH].
  - simpl. rewrite app_nil_r. split; [done|].
    intros a. by rewrite decide_False by lia.
  - rewrite seq_S, foldl_snoc. simpl.
    destruct (foldl _ _ _) as [m l]. simpl in *. destruct IH as [-> IH].
    pose proof (replica_atoms_spec t n natoms shift m) as Hrep.
    destruct (FF.replica_atoms t n natoms shift m) as [m' tmp].
    simpl in Hrep. destruct Hrep as [-> Hm']. simpl. split.
    + by rewrite fmap_app, app_assoc.
    + intros a. rewrite Hm', IH.
      destruct (decide (shift + n * natoms ≤ a < shift + n * natoms + natoms))
        as [Hin|Hout].
      * rewrite decide_True by lia. do 2 f_equal.
        apply (Nat.mod_unique _ _ n); lia.
      * destruct (decide (shift ≤ a < shift + natoms * n)).
        -- by rewrite decide_True by lia.
        -- by rewrite decide_False by lia.
Qed.

Lemma locate_ge (sizes : list nat) :
  ∀ nums g t shift a p, locate g t shift sizes nums a = Some p → shift ≤ a.
Proof.
  induction sizes as [|natoms sizes IH]; intros nums g t shift a p; simpl;
    [done|].
  destruct nums as [|n nums]; [done|].
  destruct (decide _) as [Hin|Hout]; [lia|].
  intros H. apply IH in H. lia.
Qed.

(** The loop over the molecule types, from type [length pre] on. *)
Lemma atom_maps_loop (mols : list (list FF.Site)) (mols_number : list nat)
    (rest : list (list FF.Site)) :
  ∀ pre a2m m2a shift g a2m' m2a' shift',
    mols = pre ++ rest →
    for_each (seq (length pre) (length rest))
      (λ mol_type '(atom_to_mol, molid_to_atomid, shift_),
         mol ← or_raise IndexError (mols !! mol_type);
         let natoms := length mol in
         n ← or_raise IndexError (mols_number !! mol_type);
         let '(atom_to_mol, molid_to_atomid) :=
           foldl
             (λ '(atom_to_mol, molid_to_atomid) num_mol_id,
                let '(atom_to_mol, tmp) :=
                  FF.replica_atoms mol_type num_mol_id natoms shift_ atom_to_mol in
                (atom_to_mol, molid_to_atomid ++ [tmp]))
             (atom_to_mol, molid_to_atomid) (range n) in
         Ok (atom_to_mol, molid_to_atomid, shift_ + length mol * n))
      (a2m, m2a, shift)
    = Ok (a2m', m2a', shift') →
    let sizes := length <$> rest in
    let nums := drop (length pre) mols_number in
    length rest ≤ length nums
    ∧ m2a' = m2a ++ translation shift sizes nums
    ∧ shift' = shift + total_atoms sizes nums
    ∧ ∀ a, a2m' !! a =
           match locate g (length pre) shift sizes nums a with
           | Some (_, t, k) => Some (t, k)
           | None => a2m !! a
           end.
Proof.
  induction rest as [|mol rest IH];
    intros pre a2m m2a shift g a2m' m2a' shift' Hmols; simpl.
  - intros [= <- <- <-]. rewrite app_nil_r.
    repeat split; [lia | lia].
  - rewrite Hmols at 1. rewrite list_lookup_middle by done. simpl.
    destruct (mols_number !! length pre) as [n|] eqn:Hn; simpl; [|done].
    rewrite (drop_S _ _ _ Hn). simpl.
    pose proof (replicas_spec (length pre) (length mol) shift n a2m m2a) as Hrep.
    destruct (foldl _ _ _) as [a2m1 m2a1]. simpl in Hrep.
    destruct Hrep as [-> Ha2m1].
    intros Hloop. simpl in Hloop.
    assert (Hmols' : mols = (pre ++ [mol]) ++ rest) by (by rewrite <- app_assoc).
    specialize (IH (pre ++ [mol]) a2m1
                   (m2a ++ ((λ j, seq (shift + j * length mol) (length mol))
                              <$> seq 0 n))
                   (shift + length mol * n) (g + n) a2m' m2a' shift' Hmols').
    rewrite length_app in IH. simpl in IH.
    rewrite Nat.add_1_r in IH.
    destruct (IH Hloop) as (Hlen & Hm2a & Hshift & Ha2m).
    split; [lia|]. split; [by rewrite Hm2a, <- app_assoc|].
    split; [by rewrite Hshift, Nat.add_assoc|].
    intros a. rewrite Ha2m.
    destruct (decide (shift ≤ a < shift + length mol * n)) as [Hin|Hout].
    + destruct (locate _ _ _ _ _ a) as [p|] eqn:Hloc.
      { apply locate_ge in Hloc. lia. }
      rewrite Ha2m1. by rewrite decide_True by done.
    + destruct (locate _ _ _ _ _ a) as [[[g' t'] k']|]; [done|].
      rewrite Ha2m1. by rewrite decide_False by done.
Qed.

(** What [atom_maps] returns. *)
Lemma atom_maps_spec (mols : list (list FF.Site)) (mols_number : list nat)
    a2m m2a shift :
  FF.atom_maps mols mols_number = Ok (a2m, m2a, shift) →
  let sizes := length <$> mols in
  length mols ≤ length mols_number
  ∧ m2a = translation 0 sizes mols_number
  ∧ shift = total_atoms sizes mols_number
  ∧ ∀ a, a2m !! a
         = (λ p, (p.1.2, p.2)) <$> locate 0 0 0 sizes mols_number a.
Proof.
  unfold FF.atom_maps, range. intros H.
  apply (atom_maps_loop mols mols_number mols [] ∅ [] 0 0) in H; [|done].
  simpl in H. destruct H as (H1 & H2 & H3 & H4).
  split; [done|]. split; [done|]. split; [done|].
  intros a. rewrite H4.
  destruct (locate _ _ _ _ _ a) as [[[g t] k]|]; [done|].
  by rewrite lookup_empty.
Qed.

Lemma concat_replicas (shift natoms n : nat) :
  concat ((λ j, seq (shift + j * natoms) natoms) <$> seq 0 n)
  = seq shift (natoms * n).
Proof.
  induction n as [|n IH].
  - by rewrite Nat.mul_0_r.
  - rewrite seq_S, fmap_app, concat_app, IH. simpl. rewrite app_nil_r.
    replace (natoms * S n) with (natoms * n + natoms) by lia.
    rewrite seq_app. do 2 f_equal. lia.
Qed.

Lemma concat_translation (sizes : list nat) :
  ∀ nums shift,
    concat (translation shift sizes nums) = seq shift (total_atoms sizes nums).
Proof.
  induction sizes as [|natoms sizes IH]; intros [|n nums] shift; simpl;
    try done.
  by rewrite concat_app, concat_replicas, IH, seq_app.
Qed.

Lemma length_translation (sizes : list nat) :
  ∀ nums shift, length (translation shift sizes nums) = total_mols sizes nums.
Proof.
  induction sizes as [|natoms sizes IH]; intros [|n nums] shift; simpl;
    try done.
  by rewrite length_app, length_fmap, length_seq, IH.
Qed.

(** [locate] finds the atom in the translation table. *)
Lemma locate_translation (sizes : list nat) :
  ∀ nums g0 t0 shift a g t k,
    locate g0 t0 shift sizes nums a = Some (g, t, k) →
    g0 ≤ g ∧ t0 ≤ t
    ∧ ∃ natoms ids,
        sizes !! (t - t0) = Some natoms ∧ k < natoms
        ∧ translation shift sizes nums !! (g - g0) = Some ids
        ∧ length ids = natoms
        ∧ ids !! k = Some a.
Proof.
  induction sizes as [|natoms sizes IH]; intros [|n nums] g0 t0 shift a g t k;
    simpl; try done.
  destruct (decide (shift ≤ a < shift + natoms * n)) as [Hin|Hout].
  - intros [= <- <- <-].
    assert (Hpos : natoms ≠ 0) by (intros ->; lia).
    assert (Hj : (a - shift) `div` natoms < n)
      by (apply Nat.Div0.div_lt_upper_bound; lia).
    pose proof (Nat.mod_upper_bound (a - shift) natoms Hpos) as Hk.
    pose proof (Nat.div_mod (a - shift) natoms Hpos) as Hdm.
    split; [lia|]. split; [lia|].
    exists natoms, (seq (shift + (a - shift) `div` natoms * natoms) natoms).
    rewrite Nat.sub_diag. split; [done|]. split; [done|].
    replace (g0 + (a - shift) `div` natoms - g0)
      with ((a - shift) `div` natoms) by lia.
    split; [|split].
    + rewrite lookup_app_l by (by rewrite length_fmap, length_seq).
      rewrite list_lookup_fmap, lookup_seq_lt by done. done.
    + by rewrite length_seq.
    + rewrite lookup_seq_lt by done. f_equal. lia.
  - intros Hloc. apply IH in Hloc as (Hg & Ht & natoms' & ids & H1 & H2 & H3 & H4).
    split; [lia|]. split; [lia|].
    exists natoms', ids.
    replace (t - t0) with (S (t - S t0)) by lia.
    split; [done|]. split; [done|]. split; [|done].
    rewrite lookup_app_r by (rewrite length_fmap, length_seq; lia).
    rewrite length_fmap, length_seq.
    by replace (g - g0 - n) with (g - (g0 + n)) by lia.
Qed.

(** Every position below the total is located. *)
Lemma locate_total (sizes : list nat) :
  ∀ nums g0 t0 shift a,
    shift ≤ a < shift + total_atoms sizes nums →
    is_Some (locate g0 t0 shift sizes nums a).
Proof.
  induction sizes as [|natoms sizes IH]; intros [|n nums] g0 t0 shift a;
    simpl; try lia.
  intros Ha. destruct (decide _) as [Hin|Hout]; [by eexists|].
  apply IH. lia.
Qed.

(** In a table whose concatenation has no repetition, an element has one
    place only. *)
Lemma concat_place_unique {A : Type} (L : list (list A)) :
  NoDup (concat L) →
  ∀ g g' ids ids' k k' a,
    L !! g = Some ids → ids !! k = Some a →
    L !! g' = Some ids' → ids' !! k' = Some a →
    g = g' ∧ k = k'.
Proof.
  induction L as [|l L IH]; intros Hnd g g' ids ids' k k' a; [done|].
  simpl in Hnd. apply NoDup_app in Hnd as (Hl & Hdisj & HL).
  assert (Hin : ∀ g ids k, L !! g = Some ids → ids !! k = Some a →
                           a ∈ concat L).
  { intros g1 ids1 k1 Hg Hk. apply list_elem_of_In, in_concat.
    exists ids1. split; apply list_elem_of_In.
    - by eapply list_elem_of_lookup_2.
    - by eapply list_elem_of_lookup_2. }
  destruct g as [|g], g' as [|g']; simpl.
  - intros [= <-] Hk [= <-] Hk'. split; [done|].
    exact (NoDup_lookup l k k' a Hl Hk Hk').
  - intros [= <-] Hk Hg' Hk'. destruct (Hdisj a).
    + by eapply list_elem_of_lookup_2.
    + by eapply Hin.
  - intros Hg Hk [= <-] Hk'. destruct (Hdisj a).
    + by eapply list_elem_of_lookup_2.
    + by eapply Hin.
  - intros Hg Hk Hg' Hk'.
    destruct (IH HL g g' ids ids' k k' a Hg Hk Hg' Hk') as [-> ->]. done.
Qed.

(** The loop over the sites of the assembled molecule. *)
Lemma atoms_loop (atomic_masses_dict : gmap string (list value))
    (topologies : list FF.Topology) (atom_to_mol : gmap nat (nat * nat))
    (molecule : list FF.Site) :
  ∀ k acc rows,
    for_each (zip (seq k (length molecule)) molecule)
      (λ '(i, site) atoms_data,
         entry ← or_raise KeyError (atomic_masses_dict !! FF.symbol site);
         atom_type ← or_raise IndexError (entry !! 0);
         let atom_id := i + 1 in
         m ← or_raise KeyError (atom_to_mol !! i);
         let mol_type := m.1 + 1 in
         let mol_atom_id := m.2 + 1 in
         charge ← FF.atom_charge topologies mol_type mol_atom_id;
         Ok (atoms_data ++
               [[VInt (Z.of_nat atom_id); VInt (Z.of_nat mol_type); atom_type;
                 charge; VFloat (FF.x site); VFloat (FF.y site);
                 VFloat (FF.z site)]]))
      acc = Ok rows →
    ∃ new,
      rows = acc ++ new ∧ length new = length molecule
      ∧ ∀ i row, new !! i = Some row →
          ∃ site m atom_type charge,
            molecule !! i = Some site
            ∧ atom_to_mol !! (k + i) = Some m
            ∧ FF.atom_charge topologies (m.1 + 1) (m.2 + 1) = Ok charge
            ∧ row = [VInt (Z.of_nat (k + i + 1)); VInt (Z.of_nat (m.1 + 1));
                     atom_type; charge; VFloat (FF.x site);
                     VFloat (FF.y site); VFloat (FF.z site)].
Proof.
  induction molecule as [|site molecule IH]; intros k acc rows; simpl.
  - intros [= <-]. exists []. by rewrite app_nil_r.
  - destruct (atomic_masses_dict !! FF.symbol site) as [entry|]; simpl; [|done].
    destruct (entry !! 0) as [atom_type|]; simpl; [|done].
    destruct (atom_to_mol !! k) as [m|] eqn:Hm; simpl; [|done].
    destruct (FF.atom_charge topologies (m.1 + 1) (m.2 + 1)) as [charge|]
      eqn:Hc; simpl; [|done].
    intros Hrest. apply IH in Hrest as (new & -> & Hlen & Hnew).
    eexists (_ :: new). split; [by rewrite <- app_assoc|].
    split; [simpl; lia|].
    intros [|i] row; simpl.
    + intros [= <-]. exists site, m, atom_type, charge.
      rewrite !Nat.add_0_r. done.
    + intros Hi. apply Hnew in Hi as (site' & m' & at' & c' & H1 & H2 & H3 & ->).
      exists site', m', at', c'.
      replace (k + S i) with (S k + i) by lia. done.
Qed.

(** What [get_atoms_data] returns. *)
Lemma get_atoms_data_spec mols mols_number molecule atomic_masses_dict
    topologies atoms_data m2a :
  FF.get_atoms_data mols mols_number molecule atomic_masses_dict topologies
  = Ok (atoms_data, m2a) →
  let sizes := length <$> mols in
  length mols ≤ length mols_number
  ∧ m2a = translation 0 sizes mols_number
  ∧ length atoms_data = length molecule
  ∧ ∀ i row, atoms_data !! i = Some row →
      ∃ site g t k atom_type charge,
        molecule !! i = Some site
        ∧ locate 0 0 0 sizes mols_number i = Some (g, t, k)
        ∧ FF.atom_charge topologies (t + 1) (k + 1) = Ok charge
        ∧ row = [VInt (Z.of_nat (i + 1)); VInt (Z.of_nat (t + 1)); atom_type;
                 charge; VFloat (FF.x site); VFloat (FF.y site);
                 VFloat (FF.z site)].
Proof.
  unfold FF.get_atoms_data. intros H.
  apply bind_Ok in H as ([[a2m m2a'] shift] & Hmaps & H).
  apply bind_Ok in H as (rows & Hloop & [= <- <-]).
  apply atom_maps_spec in Hmaps as (Hlen & Hm2a & _ & Ha2m).
  apply atoms_loop in Hloop as (new & -> & Hnew & Hrows).
  split; [done|]. split; [done|]. split; [done|].
  intros i row Hi. simpl in Hi.
  apply Hrows in Hi as (site & m & atom_type & charge & H1 & H2 & H3 & ->).
  simpl in H2. rewrite Ha2m in H2.
  destruct (locate 0 0 0 (length <$> mols) mols_number i) as [[[g t] k]|]
    eqn:Hloc; [|done].
  injection H2 as <-. simpl in *.
  by exists site, g, t, k, atom_type, charge.
Qed.

End AtomTranslation.

(** ** An assembly for the examples

    Two molecule types: the first has two atoms and one bond and is taken
    three times, the second has one atom and no bond and is taken twice. *)

Definition example_site (s : string) : @FF.Site literal_floats :=
  @FF.Build_Site literal_floats s (lit "0.0") (lit "0.0") (lit "0.0").
Definition example_mols : list (list (@FF.Site literal_floats)) :=
  [[example_site "C"; example_site "H"]; [example_site "O"]].
Definition example_numbers : list nat := [3; 2].
Definition example_molecule : list (@FF.Site literal_floats) :=
  [example_site "C"; example_site "H"; example_site "C"; example_site "H";
   example_site "C"; example_site "H"; example_site "O"; example_site "O"].
Definition example_masses : gmap string (list (@value literal_floats)) :=
  {[ "H"%string := [VInt 1; @VFloat literal_floats (lit "1.008")];
     "C"%string := [VInt 2; @VFloat literal_floats (lit "12.011")];
     "O"%string := [VInt 3; @VFloat literal_floats (lit "15.999")] ]}.
Definition example_topologies : list (@FF.Topology literal_floats) :=
  [ @FF.Build_Topology literal_floats None
      {[ "bonds"%string := Some [([0%Z; 1%Z], ["C"; "H"]%string)] ]};
    @FF.Build_Topology literal_floats None {[ "bonds"%string := Some [] ]} ].

Section AtomRecords.
Context `{FM : FloatModel}.

(** C6: the translation table [molid_to_atomid] that [get_atoms_data]
    returns lists, molecule by molecule in concatenation order, the
    positions [0 .. N-1] of the atoms (the atom ids [1 .. N] minus one),
    [N] the sum of [r_i * n_i], each exactly once: every atom has one
    (global molecule, local index), hence one (type, replica, local
    index), and every entry of the table is an atom. *)
Theorem atom_translation_bijective mols mols_number molecule
    atomic_masses_dict topologies atoms_data m2a :
  FF.get_atoms_data mols mols_number molecule atomic_masses_dict topologies
  = Ok (atoms_data, m2a) →
  let sizes := length <$> mols in
  let N := total_atoms sizes mols_number in
  S <$> concat m2a = seq 1 N
  ∧ NoDup (concat m2a)
  ∧ length m2a = total_mols sizes mols_number
  ∧ (∀ a, a < N →
       ∃ g t k natoms ids,
         locate 0 0 0 sizes mols_number a = Some (g, t, k)
         ∧ sizes !! t = Some natoms ∧ k < natoms
         ∧ m2a !! g = Some ids ∧ length ids = natoms ∧ ids !! k = Some a
         ∧ ∀ g' ids' k', m2a !! g' = Some ids' → ids' !! k' = Some a →
                         g' = g ∧ k' = k)
  ∧ (∀ g ids k a, m2a !! g = Some ids → ids !! k = Some a → a < N).
Proof.
  intros H sizes N.
  apply get_atoms_data_spec in H as (Hlen & Hm2a & _ & _).
  fold sizes in Hm2a.
  assert (Hcat : concat m2a = seq 0 N)
    by (by rewrite Hm2a, concat_translation).
  assert (Hnd : NoDup (concat m2a)) by (rewrite Hcat; apply NoDup_seq).
  split; [by rewrite Hcat, fmap_S_seq|].
  split; [done|].
  split; [by rewrite Hm2a, length_translation|].
  split.
  - intros a Ha.
    destruct (locate_total sizes mols_number 0 0 0 a) as [[[g t] k] Hloc];
      [fold N; lia|].
    destruct (locate_translation _ _ _ _ _ _ _ _ _ Hloc)
      as (_ & _ & natoms & ids & H1 & H2 & H3 & H4 & H5).
    rewrite Nat.sub_0_r in H1, H3. rewrite <- Hm2a in H3.
    exists g, t, k, natoms, ids. repeat (split; [done|]).
    intros g' ids' k' Hg' Hk'.
    by destruct (concat_place_unique m2a Hnd g g' ids ids' k k' a).
  - intros g ids k a Hg Hk.
    assert (Hin : a ∈ concat m2a).
    { apply list_elem_of_In, in_concat. exists ids.
      split; apply list_elem_of_In; by eapply list_elem_of_lookup_2. }
    rewrite Hcat in Hin. apply elem_of_seq in Hin. lia.
Qed.


End AtomRecords.

(** The value of [get_atoms_data] on the example. *)
Definition example_atoms_result :=
  Eval vm_compute in
    FF.get_atoms_data example_mols example_numbers example_molecule
      example_masses example_topologies.

Lemma example_atoms_evaluated :
  FF.get_atoms_data example_mols example_numbers example_molecule
    example_masses example_topologies = example_atoms_result.
Proof. vm_cast_no_check (eq_refl example_atoms_result). Qed.

Lemma example_atoms_data :
  ∃ atoms_data m2a,
    FF.get_atoms_data example_mols example_numbers example_molecule
      example_masses example_topologies = Ok (atoms_data, m2a).
Proof. eexists _, _. exact example_atoms_evaluated. Qed.

Lemma atom_translation_bijective_witness :
  ∃ atoms_data m2a,
    FF.get_atoms_data example_mols example_numbers example_molecule
      example_masses example_topologies = Ok (atoms_data, m2a)
    ∧ S <$> concat m2a = seq 1 8.
Proof.
  destruct example_atoms_data as (atoms_data & m2a & H).
  exists atoms_data, m2a. split; [exact H|].
  exact (proj1 (atom_translation_bijective _ _ _ _ _ _ _ H)).
Defined.



(** ** ParameterRecordMapper *)

Section ParamRecords.
Context `{FM : FloatModel}.













(** A label is unresolved when the map has neither it nor its reverse. *)
Definition absent (param_map : gmap label Z) (l : label) : Prop :=
  param_map !! l = None ∧ param_map !! reverse l = None.

#[local] Instance absent_dec param_map l : Decision (absent param_map l).
Proof. unfold absent. apply _. Defined.














End ParamRecords.

(** In the example every bond resolves: three rows, with ids 1, 2, 3. *)
(** The value of [get_param_data] on the example. *)
Definition example_bonds_result :=
  Eval vm_compute in
    FF.get_param_data "bonds" {[ ["C"; "H"]%string := 1%Z ]} example_mols
      example_numbers example_topologies [[0; 1]; [2; 3]; [4; 5]; [6]; [7]].

Lemma example_bonds_evaluated :
  FF.get_param_data "bonds" {[ ["C"; "H"]%string := 1%Z ]} example_mols
    example_numbers example_topologies [[0; 1]; [2; 3]; [4; 5]; [6]; [7]]
  = example_bonds_result.
Proof. vm_cast_no_check (eq_refl example_bonds_result). Qed.



(** ** Characters *)

Local Ltac by_char a :=
  destruct a as [[|] [|] [|] [|] [|] [|] [|] [|]]; vm_compute;
  first [reflexivity | discriminate | intuition discriminate].

Lemma digit_not_space a : is_digit a = true → is_space a = false.
Proof. by_char a. Qed.
Lemma mass_char_not_space a : is_mass_char a = true → is_space a = false.
Proof. by_char a. Qed.
Lemma num_char_not_space a : is_num_char a = true → is_space a = false.
Proof. by_char a. Qed.
Lemma alpha_not_space a : is_alpha a = true → is_space a = false.
Proof. by_char a. Qed.
Lemma xyz_not_space a : is_xyz a = true → is_space a = false.
Proof. by_char a. Qed.
Lemma digit_mass_char a : is_digit a = true → is_mass_char a = true.
Proof. by_char a. Qed.
Lemma digit_num_char a : is_digit a = true → is_num_char a = true.
Proof. by_char a. Qed.
Lemma mass_char_num_char a : is_mass_char a = true → is_num_char a = true.
Proof. by_char a. Qed.
Lemma mass_char_not_alpha a : is_mass_char a = true → is_alpha a = false.
Proof. by_char a. Qed.
Lemma digit_not_alpha a : is_digit a = true → is_alpha a = false.
Proof. by_char a. Qed.
Lemma is_char_eq a b : is_char a b = true ↔ a = b.
Proof. apply Ascii.eqb_eq. Qed.

(** The characters of a printed number, [inf] and [nan] included. *)
Definition is_repr_char (c : ascii) : bool :=
  is_num_char c || is_char "i" c || is_char "n" c || is_char "f" c
  || is_char "a" c.

Lemma num_char_repr_char a : is_num_char a = true → is_repr_char a = true.
Proof. by_char a. Qed.
Lemma repr_char_not_space a : is_repr_char a = true → is_space a = false.
Proof. by_char a. Qed.
Lemma repr_char_not_c a :
  is_repr_char a = true → is_char "c" (lower_char a) = false.
Proof. by_char a. Qed.
Lemma space_not_c a : is_space a = true → is_char "c" (lower_char a) = false.
Proof. by_char a. Qed.

(** ** Runs of characters *)

(** Every character of [s] is in the class [c]. *)
Definition all (c : ascii → bool) (s : str) : Prop := Forall (λ a, c a = true) s.

(** [s] does not go on with a character of the class [c]. *)
Definition stops (c : ascii → bool) (s : str) : Prop :=
  match s with [] => True | a :: _ => c a = false end.

Lemma all_forallb c s : all c s ↔ forallb c s = true.
Proof.
  unfold all. induction s as [|a s IH]; simpl.
  - split; [done|constructor].
  - rewrite Forall_cons, IH, andb_true_iff. done.
Qed.

Lemma all_app c s1 s2 : all c (s1 ++ s2) ↔ all c s1 ∧ all c s2.
Proof. apply Forall_app. Qed.

Lemma all_impl (c c' : ascii → bool) s :
  (∀ a, c a = true → c' a = true) → all c s → all c' s.
Proof. intros H Hs. eapply Forall_impl; [exact Hs|exact H]. Qed.

Lemma stops_of_all (c c' : ascii → bool) (s t : str) :
  (∀ a, c' a = true → c a = false) → all c' s → s ≠ [] → stops c (s ++ t).
Proof.
  intros Hd Hs Hne. destruct s as [|a s]; [done|]. simpl.
  apply Forall_cons in Hs as [Ha _]. by apply Hd.
Qed.

(** ** The matcher *)

Lemma greedy_inv {R : Type} (c : ascii → bool) (s : str) :
  ∀ (k : str → str → option R) (v : R),
    greedy c k s = Some v →
    ∃ r s', s = r ++ s' ∧ all c r ∧ k r s' = Some v.
Proof.
  induction s as [|a s IH]; intros k v; simpl.
  - intros H. exists [], []. by repeat split; [constructor|].
  - destruct (c a) eqn:Hc.
    + destruct (greedy c (λ taken rest, k (a :: taken) rest) s) as [v'|] eqn:Hg.
      * intros [= <-]. apply IH in Hg as (r & s' & -> & Hr & Hk).
        exists (a :: r), s'. repeat split; [by constructor | done].
      * intros H. exists [], (a :: s). by repeat split; [constructor|].
    + intros H. exists [], (a :: s). by repeat split; [constructor|].
Qed.

Lemma greedy_hit {R : Type} (c : ascii → bool) (r : str) :
  ∀ (k : str → str → option R) (s : str) (v : R),
    all c r → stops c s → k r s = Some v → greedy c k (r ++ s) = Some v.
Proof.
  induction r as [|a r IH]; intros k s v Hr Hs Hk; simpl.
  - destruct s as [|b s]; simpl; [done|]. simpl in Hs. by rewrite Hs.
  - apply Forall_cons in Hr as [Ha Hr]. rewrite Ha.
    by rewrite (IH (λ taken rest, k (a :: taken) rest) s v).
Qed.

Lemma rmatch_star_inv c p s gs :
  rmatch (Star c :: p) s = Some gs →
  ∃ r s', s = r ++ s' ∧ all c r ∧ rmatch p s' = Some gs.
Proof. simpl. apply greedy_inv. Qed.

Lemma rmatch_plus_inv c p s gs :
  rmatch (Plus c :: p) s = Some gs →
  ∃ r s', s = r ++ s' ∧ all c r ∧ r ≠ [] ∧ rmatch p s' = Some gs.
Proof.
  simpl. intros H. apply greedy_inv in H as (r & s' & -> & Hr & Hk).
  destruct r as [|a r]; [done|]. by exists (a :: r), s'.
Qed.

Lemma rmatch_grp_inv c p s gs :
  rmatch (Grp c :: p) s = Some gs →
  ∃ r s' gs', s = r ++ s' ∧ all c r ∧ r ≠ [] ∧ rmatch p s' = Some gs'
              ∧ gs = r :: gs'.
Proof.
  simpl. intros H. apply greedy_inv in H as (r & s' & -> & Hr & Hk).
  destruct r as [|a r]; [done|].
  destruct (rmatch p s') as [gs'|] eqn:Hp; [|done].
  injection Hk as <-. by exists (a :: r), s', gs'.
Qed.

Lemma rmatch_cls_inv c p s gs :
  rmatch (Cls c :: p) s = Some gs →
  ∃ a s', s = a :: s' ∧ c a = true ∧ rmatch p s' = Some gs.
Proof.
  simpl. destruct s as [|a s]; [done|]. destruct (c a) eqn:Hc; [|done].
  intros H. by exists a, s.
Qed.

Lemma at_eol_inv s : at_eol s = true → s = [] ∨ s = [newline].
Proof.
  destruct s as [|a [|b s]]; [by left | | done].
  unfold at_eol. intros H. apply is_char_eq in H. subst. by right.
Qed.

Lemma rmatch_eol_inv p s gs :
  rmatch (Eol :: p) s = Some gs →
  (s = [] ∨ s = [newline]) ∧ rmatch p s = Some gs.
Proof.
  simpl. destruct (at_eol s) eqn:He; [|done].
  intros H. split; [by apply at_eol_inv|done].
Qed.

Lemma rmatch_star_hit c p r s gs :
  all c r → stops c s → rmatch p s = Some gs →
  rmatch (Star c :: p) (r ++ s) = Some gs.
Proof. intros Hr Hs Hp. simpl. by apply greedy_hit. Qed.

Lemma rmatch_star_skip c p s gs :
  stops c s → rmatch p s = Some gs → rmatch (Star c :: p) s = Some gs.
Proof. intros Hs Hp. apply (rmatch_star_hit c p [] s); [constructor|done..]. Qed.

Lemma rmatch_plus_hit c p r s gs :
  all c r → r ≠ [] → stops c s → rmatch p s = Some gs →
  rmatch (Plus c :: p) (r ++ s) = Some gs.
Proof.
  intros Hr Hne Hs Hp. simpl. apply greedy_hit; [done..|].
  by destruct r.
Qed.

Lemma rmatch_grp_hit c p r s gs :
  all c r → r ≠ [] → stops c s → rmatch p s = Some gs →
  rmatch (Grp c :: p) (r ++ s) = Some (r :: gs).
Proof.
  intros Hr Hne Hs Hp. simpl. apply greedy_hit; [done..|].
  destruct r; [done|]. by rewrite Hp.
Qed.

(** ** Tokens *)

(** A token: not empty, and without blanks. *)
Definition token (t : str) : Prop := t ≠ [] ∧ all (λ a, negb (is_space a)) t.

Lemma token_of_class (c : ascii → bool) (t : str) :
  (∀ a, c a = true → is_space a = false) → all c t → t ≠ [] → token t.
Proof.
  intros Hc Ht Hne. split; [done|].
  eapply all_impl; [|done]. intros a Ha. simpl. by rewrite (Hc a Ha).
Qed.

Lemma split_blanks (r s : str) : all is_space r → split (r ++ s) = split s.
Proof.
  induction 1 as [|a r Ha Hr IH]; [done|]. simpl. by rewrite Ha.
Qed.

Lemma split_token (t s : str) :
  token t → stops (λ a, negb (is_space a)) s → split (t ++ s) = t :: split s.
Proof.
  intros [Hne Ht] Hs. induction t as [|a t IH]; [done|].
  apply Forall_cons in Ht as [Ha Ht]. apply negb_true_iff in Ha.
  simpl. rewrite Ha. destruct t as [|b t].
  - simpl. destruct s as [|d s']; [done|]. simpl in Hs.
    apply negb_false_iff in Hs. by rewrite Hs.
  - pose proof Ht as Ht'. apply Forall_cons in Ht' as [Hb _].
    apply negb_true_iff in Hb. rewrite IH by done.
    change ((b :: t) ++ s) with (b :: (t ++ s)). cbv iota. by rewrite Hb.
Qed.

Lemma split_token_head (t s : str) :
  token t → ∃ t' ts, split (t ++ s) = t' :: ts.
Proof.
  intros [Hne Ht]. induction t as [|a t IH]; [done|].
  apply Forall_cons in Ht as [Ha Ht]. apply negb_true_iff in Ha.
  simpl. rewrite Ha. destruct (t ++ s) as [|d u]; [by eexists _, _|].
  destruct (is_space d); [by eexists _, _|].
  destruct (split (d :: u)); by eexists _, _.
Qed.

Lemma stops_blank (r s : str) :
  all is_space r → r ≠ [] → stops (λ a, negb (is_space a)) (r ++ s).
Proof.
  intros Hr Hne. destruct r as [|a r]; [done|]. simpl.
  apply Forall_cons in Hr as [Ha _]. by rewrite Ha.
Qed.

Lemma split_eol (e : str) : e = [] ∨ e = [newline] → split e = [].
Proof. by intros [-> | ->]. Qed.

Lemma stops_eol (e : str) :
  e = [] ∨ e = [newline] → stops (λ a, negb (is_space a)) e.
Proof. by intros [-> | ->]. Qed.

(** The tokens of a line written as fields joined by single spaces. *)
Lemma split_join (toks : list str) (e : str) :
  Forall token toks → all is_space e →
  split (join (lit " ") toks ++ e) = toks.
Proof.
  intros Htoks He. induction Htoks as [|t toks Ht Htoks IH].
  - simpl. rewrite <- (app_nil_r e), split_blanks; done.
  - destruct toks as [|t' toks].
    + simpl. rewrite split_token; [|done|].
      * by rewrite <- (app_nil_r e), split_blanks.
      * destruct e as [|a e]; [done|]. simpl.
        apply Forall_cons in He as [Ha _]. by rewrite Ha.
    + change (join (lit " ") (t :: t' :: toks))
        with (t ++ lit " " ++ join (lit " ") (t' :: toks)).
      rewrite <- !app_assoc. rewrite split_token; [|done|done].
      f_equal. change (lit " " ++ ?x) with (" "%char :: x). simpl.
      apply IH.
Qed.

(** ** SectionParser: what a line does to the local variables *)

Lemma for_each_invariant {A S : Type} (P : S → Prop) (body : A → S → result S)
    (l : list A) :
  (∀ a s s', P s → body a s = Ok s' → P s') →
  ∀ s s', P s → for_each l body s = Ok s' → P s'.
Proof.
  intros Hstep. induction l as [|a l IH]; intros s s' Hs; simpl.
  - by intros [= <-].
  - intros H. apply bind_Ok in H as (s1 & H1 & H). eauto.
Qed.

Lemma bind_Ok_pair {A B C : Type} (m : result (A * B)) (f : A → B → result C)
    (c : C) :
  (m ≫= λ '(a, b), f a b) = Ok c ↔ ∃ a b, m = Ok (a, b) ∧ f a b = Ok c.
Proof.
  destruct m as [[a b]|e]; simpl; split.
  - intros H. by exists a, b.
  - by intros (a' & b' & [= <- <-] & H).
  - done.
  - by intros (a' & b' & [=] & _).
Qed.

(** Peel the steps of a line off a successful run. *)
Ltac peel H :=
  repeat first
    [ apply bind_Ok_pair in H as (? & ? & ? & H)
    | apply bind_Ok in H as (? & ? & H)
    | match type of H with
      | (if ?b then _ else _) = Ok _ => destruct b eqn:?
      | context [let '(_, _) := ?x in _] =>
          is_var x; destruct x; cbv beta iota in H
      | Ok _ = Ok _ => injection H as H
      end ].

Section ParserSteps.
Context `{FM : FloatModel}.

(** A table after a step that may append one row. *)
Definition grown (old new : list (list value)) : Prop :=
  new = old ∨ ∃ row, new = old ++ [row].

Lemma grown_prefix old new : grown old new → old `prefix_of` new.
Proof. intros [-> | [row ->]]; [done|]. by apply prefix_app_r. Qed.

Lemma append_stage (o : option (list str)) (f : list str → result (list value))
    (old new : list (list value)) :
  match o with
  | Some m => row ← f m; Ok (old ++ [row])
  | None => Ok old
  end = Ok new →
  (o = None ∧ new = old) ∨ ∃ m row, o = Some m ∧ f m = Ok row ∧ new = old ++ [row].
Proof.
  destruct o as [m|]; intros H.
  - peel H. subst. right. by eexists _, _.
  - peel H. subst. by left.
Qed.

Lemma read_tokens_inv coeffs ntypes line coeffs' reading :
  FF.read_tokens coeffs ntypes line = Ok (coeffs', reading) →
  (split line = [] ∧ coeffs' = coeffs ∧ reading = true)
  ∨ ∃ t0 ts i vs n,
      split line = t0 :: ts ∧ int_of_str t0 = Some i
      ∧ mapM py_float ts = Ok vs
      ∧ coeffs' = coeffs ++ [VInt i :: map VFloat vs]
      ∧ ntypes = Some n
      ∧ reading = negb (Z.of_nat (length coeffs') >=? n)%Z.
Proof.
  unfold FF.read_tokens, FF.keep_reading.
  destruct (split line) as [|t0 ts]; intros H.
  - peel H. subst. by left.
  - peel H. subst.
    match goal with H1 : (_ ≫= _) = Ok _ |- _ => peel H1 end.
    match goal with H1 : or_raise NameError _ = Ok _ |- _ =>
      apply or_raise_Ok in H1 end.
    match goal with H1 : py_int _ = Ok _ |- _ => apply or_raise_Ok in H1 end.
    subst. right. by eexists _, _, _, _, _.
Qed.

Lemma read_general_inv coeffs ntypes line coeffs' reading :
  FF.read_general coeffs ntypes line = Ok (coeffs', reading) →
  (search general_coeff_pattern line = None ∧ coeffs' = coeffs ∧ reading = true)
  ∨ ∃ m row n,
      search general_coeff_pattern line = Some m
      ∧ coeffs' = coeffs ++ [row]
      ∧ ntypes = Some n
      ∧ reading = negb (Z.of_nat (length coeffs') >=? n)%Z.
Proof.
  unfold FF.read_general, FF.keep_reading.
  destruct (search general_coeff_pattern line) as [m|]; intros H.
  - peel H. subst.
    match goal with H1 : (_ ≫= _) = Ok _ |- _ => peel H1 end.
    match goal with H1 : or_raise NameError _ = Ok _ |- _ =>
      apply or_raise_Ok in H1 end.
    subst. right. by eexists _, _, _.
  - peel H. subst. by left.
Qed.

Lemma read_bonded_inv pattern atoms_data data line data' :
  FF.read_bonded pattern atoms_data data line = Ok data' →
  data' = data
  ∨ (atoms_data ≠ []
     ∧ ∃ m ints, search pattern line = Some m ∧ mapM py_int m = Ok ints
                 ∧ data' = data ++ [map VInt ints]).
Proof.
  unfold FF.read_bonded.
  destruct (search pattern line) as [m|], atoms_data as [|a l]; intros H;
    peel H; subst; try (by left).
  right. split; [done|]. by eexists _, _.
Qed.

Lemma append_stage_grown (o : option (list str))
    (f : list str → result (list value)) (old new : list (list value)) :
  match o with
  | Some m => row ← f m; Ok (old ++ [row])
  | None => Ok old
  end = Ok new →
  grown old new.
Proof.
  intros H. apply append_stage in H as [[_ ->]|(m & row & _ & _ & ->)].
  - by left.
  - right. by exists row.
Qed.

Lemma read_tokens_grown (b : bool) coeffs ntypes line coeffs' reading :
  (if b then FF.read_tokens coeffs ntypes line else Ok (coeffs, b))
  = Ok (coeffs', reading) →
  grown coeffs coeffs'.
Proof.
  destruct b; intros H.
  - apply read_tokens_inv in H
      as [(_ & -> & _)|(? & ? & ? & ? & ? & _ & _ & _ & -> & _ & _)].
    + by left.
    + right. by eexists.
  - injection H as <- _. by left.
Qed.

Lemma read_general_grown (b : bool) coeffs ntypes line coeffs' reading :
  (if b then FF.read_general coeffs ntypes line else Ok (coeffs, b))
  = Ok (coeffs', reading) →
  grown coeffs coeffs'.
Proof.
  destruct b; intros H.
  - apply read_general_inv in H as [(_ & -> & _)|(? & ? & ? & _ & -> & _ & _)].
    + by left.
    + right. by eexists.
  - injection H as <- _. by left.
Qed.

Lemma read_bonded_grown pattern atoms_data data line data' :
  FF.read_bonded pattern atoms_data data line = Ok data' → grown data data'.
Proof.
  intros H. apply read_bonded_inv in H as [->|(_ & ? & ? & _ & _ & ->)].
  - by left.
  - right. by eexists.
Qed.

(** Turn the steps peeled off a line into facts about the tables. *)
Ltac stage_facts lem_stage lem_tokens lem_general lem_bonded :=
  repeat match goal with
    | H1 : match search _ _ with Some _ => _ ≫= _ | None => _ end = Ok _ |- _ =>
        apply lem_stage in H1
    | H1 : (if _ then FF.read_tokens _ _ _ else _) = Ok _ |- _ =>
        apply lem_tokens in H1
    | H1 : (if _ then FF.read_general _ _ _ else _) = Ok _ |- _ =>
        apply lem_general in H1
    | H1 : FF.read_bonded _ _ _ _ = Ok _ |- _ =>
        apply lem_bonded in H1
    end.

(** The tables of the parser only grow: a line appends at most one row to
    a table, and the improper records are never touched. *)
Lemma from_file_line_grows line st st' :
  FF.from_file_line line st = Ok st' →
  grown (FF.v_atomic_masses st) (FF.v_atomic_masses st')
  ∧ grown (FF.v_box_size st) (FF.v_box_size st')
  ∧ grown (FF.v_pair_coeffs st) (FF.v_pair_coeffs st')
  ∧ grown (FF.v_bond_coeffs st) (FF.v_bond_coeffs st')
  ∧ grown (FF.v_angle_coeffs st) (FF.v_angle_coeffs st')
  ∧ grown (FF.v_dihedral_coeffs st) (FF.v_dihedral_coeffs st')
  ∧ grown (FF.v_improper_coeffs st) (FF.v_improper_coeffs st')
  ∧ grown (FF.v_atoms_data st) (FF.v_atoms_data st')
  ∧ grown (FF.v_bonds_data st) (FF.v_bonds_data st')
  ∧ grown (FF.v_angles_data st) (FF.v_angles_data st')
  ∧ grown (FF.v_dihedral_data st) (FF.v_dihedral_data st')
  ∧ FF.v_imdihedral_data st' = FF.v_imdihedral_data st.
Proof.
  intros H. unfold FF.from_file_line in H. destruct st.
  peel H; subst; simpl;
    stage_facts append_stage_grown read_tokens_grown read_general_grown
      read_bonded_grown;
    repeat split; first [assumption | by left].
Qed.

End ParserSteps.

#[local] Arguments is_char : simpl never.
#[local] Arguments is_space : simpl never.
#[local] Arguments search : simpl never.

(** ** SectionParser: invariants of the loop over the lines *)


Lemma for_each_skip {A S : Type} (body : A → S → result S) (l : list A) (s : S) :
  Forall (λ a, ∀ s, body a s = Ok s) l → for_each l body s = Ok s.
Proof.
  induction 1 as [|a l Ha Hl IH]; simpl; [done|]. by rewrite Ha.
Qed.

Section ParserInvariants.
Context `{FM : FloatModel}.

Lemma from_file_Ok text r :
  FF.from_file text = Ok r →
  ∃ st,
    for_each (readlines text) FF.from_file_line FF.initial = Ok st
    ∧ r = FF.__init__ (FF.v_box_size st) (FF.v_atomic_masses st)
            (FF.v_pair_coeffs st) (FF.v_bond_coeffs st) (FF.v_angle_coeffs st)
            (FF.v_dihedral_coeffs st) (FF.v_improper_coeffs st)
            (FF.v_atoms_data st) (FF.v_bonds_data st) (FF.v_angles_data st)
            (FF.v_dihedral_data st) (FF.v_imdihedral_data st).
Proof.
  unfold FF.from_file. intros H. apply bind_Ok in H as (st & Hst & [= <-]).
  by exists st.
Qed.

Lemma parser_improper_records text st :
  for_each (readlines text) FF.from_file_line FF.initial = Ok st →
  FF.v_imdihedral_data st = [].
Proof.
  apply (for_each_invariant (λ st, FF.v_imdihedral_data st = [])); [|done].
  intros line s s' Hs Hstep. apply from_file_line_grows in Hstep.
  destruct Hstep as (_ & _ & _ & _ & _ & _ & _ & _ & _ & _ & _ & ->). done.
Qed.

Lemma from_file_line_bonded line st st' :
  FF.from_file_line line st = Ok st' →
  FF.v_atoms_data st' = [] →
  FF.v_bonds_data st' = FF.v_bonds_data st
  ∧ FF.v_angles_data st' = FF.v_angles_data st
  ∧ FF.v_dihedral_data st' = FF.v_dihedral_data st.
Proof.
  intros H. unfold FF.from_file_line in H. destruct st.
  peel H; subst; simpl; intros Hat; [done..|]. subst.
  repeat match goal with
    | H1 : FF.read_bonded _ _ _ _ = Ok _ |- _ =>
        apply read_bonded_inv in H1 as [->|[? _]]
    end; done.
Qed.

Lemma parser_bonded_records text st :
  for_each (readlines text) FF.from_file_line FF.initial = Ok st →
  FF.v_atoms_data st = [] →
  FF.v_bonds_data st = [] ∧ FF.v_angles_data st = []
  ∧ FF.v_dihedral_data st = [].
Proof.
  apply (for_each_invariant (λ st,
    FF.v_atoms_data st = [] →
    FF.v_bonds_data st = [] ∧ FF.v_angles_data st = []
    ∧ FF.v_dihedral_data st = [])); [|done].
  intros line s s' Hs Hstep Hat.
  destruct (from_file_line_bonded _ _ _ Hstep Hat) as (-> & -> & ->).
  apply Hs. apply from_file_line_grows in Hstep.
  destruct Hstep as (_ & _ & _ & _ & _ & _ & _ & Hg & _).
  apply grown_prefix in Hg. rewrite Hat in Hg. by apply prefix_nil_inv in Hg.
Qed.











End ParserInvariants.

(** ** Lines and section names *)

Lemma starts_with_prefix (p s : str) : starts_with p s = true → p `prefix_of` s.
Proof.
  revert s. induction p as [|a p IH]; intros s; simpl.
  - intros _. apply prefix_nil.
  - destruct s as [|b s]; [done|]. intros H.
    apply andb_true_iff in H as [Hab Hp]. apply is_char_eq in Hab as ->.
    by apply prefix_cons, IH.
Qed.

Lemma contains_elem (needle hay : str) (a : ascii) :
  contains needle hay = true → a ∈ needle → a ∈ hay.
Proof.
  induction hay as [|b hay IH]; simpl; intros H Ha.
  - rewrite orb_false_r in H. apply starts_with_prefix in H as [t Ht].
    destruct needle; [by apply elem_of_nil in Ha|done].
  - apply orb_true_iff in H as [H|H].
    + apply starts_with_prefix in H as [t ->]. apply elem_of_app. by left.
    + apply elem_of_cons. right. by apply IH.
Qed.

Lemma space_lower a : is_space a = true → is_space (lower_char a) = true.
Proof. by_char a. Qed.

(** A line without the letter [c], in either case, names no section. *)
Lemma no_section_name (name : string) (line : str) :
  name ∈ ["Pair Coeffs"; "Bond Coeffs"; "Angle Coeffs"; "Dihedral Coeffs";
          "Improper Coeffs"]%string →
  all (λ a, negb (is_char "c" (lower_char a))) line →
  contains (lower (lit name)) (lower line) = false.
Proof.
  intros Hname Hline.
  destruct (contains (lower (lit name)) (lower line)) eqn:Hc; [|done].
  assert (Hin : ("c"%char : ascii) ∈ lower (lit name)).
  { repeat (apply elem_of_cons in Hname as [->|Hname]);
      [| | | | |by apply elem_of_nil in Hname];
      apply list_elem_of_In; vm_compute; tauto. }
  apply (contains_elem _ _ _ Hc) in Hin.
  unfold lower in Hin. apply list_elem_of_fmap in Hin as (b & Hb & Hin).
  unfold all in Hline. rewrite Forall_forall in Hline.
  specialize (Hline b Hin). cbv beta in Hline. rewrite <- Hb in Hline.
  by vm_compute in Hline.
Qed.

Lemma blank_no_section (name : string) (line : str) :
  name ∈ ["Pair Coeffs"; "Bond Coeffs"; "Angle Coeffs"; "Dihedral Coeffs";
          "Improper Coeffs"]%string →
  all is_space line →
  contains (lower (lit name)) (lower line) = false.
Proof.
  intros Hname Hline. apply no_section_name; [done|].
  eapply all_impl; [|done]. intros a Ha. cbv beta.
  apply negb_true_iff. by apply space_not_c.
Qed.

Lemma blank_no_group (c : ascii → bool) (p : list rx) (line : str) :
  (∀ a, c a = true → is_space a = false) → all is_space line →
  rmatch (Grp c :: p) line = None.
Proof.
  intros Hc Hline. destruct (rmatch (Grp c :: p) line) as [gs|] eqn:H; [|done].
  apply rmatch_grp_inv in H as (r & s' & gs' & -> & Hr & Hne & _).
  apply all_app in Hline as [Hline _]. destruct r as [|a r]; [done|].
  apply Forall_cons in Hr as [Ha _]. apply Forall_cons in Hline as [Ha' _].
  rewrite (Hc a Ha) in Ha'. done.
Qed.

Lemma blank_no_match (c : ascii → bool) (p : list rx) (line : str) :
  (∀ a, c a = true → is_space a = false) → all is_space line →
  rmatch (Star is_space :: Grp c :: p) line = None.
Proof.
  intros Hc Hline.
  destruct (rmatch (Star is_space :: Grp c :: p) line) as [gs|] eqn:H; [|done].
  apply rmatch_star_inv in H as (r & s' & -> & _ & H).
  apply all_app in Hline as [_ Hline].
  by rewrite blank_no_group in H.
Qed.

Lemma split_blank (line : str) : all is_space line → split line = [].
Proof. intros H. by rewrite <- (app_nil_r line), split_blanks. Qed.

(** ** The lines of a text *)

Lemma readlines_nil (t : str) : readlines t = [] → t = [].
Proof.
  destruct t as [|c t]; [done|]. simpl.
  destruct (is_char newline c); [done|]. by destruct (readlines t).
Qed.

(** A text that is empty or ends with a newline ends a line. *)
Definition ends_line (t : str) : Prop := t = [] ∨ last t = Some newline.

Lemma readlines_app (t1 t2 : str) :
  ends_line t1 → readlines (t1 ++ t2) = readlines t1 ++ readlines t2.
Proof.
  induction t1 as [|c t1 IH]; intros Hend; [done|].
  destruct Hend as [|Hlast]; [done|]. simpl.
  destruct t1 as [|d t1].
  - injection Hlast as ->. done.
  - rewrite IH by (by right). destruct (is_char newline c); [done|].
    destruct (readlines (d :: t1)) as [|l ls] eqn:E; [|done].
    by apply readlines_nil in E.
Qed.

Lemma readlines_class (c : ascii → bool) (t : str) :
  all c t → Forall (all c) (readlines t).
Proof.
  induction 1 as [|a t Ha Ht IH]; simpl; [constructor|].
  destruct (is_char newline a).
  - constructor; [by constructor|done].
  - destruct (readlines t) as [|l ls].
    + constructor; [by constructor|constructor].
    + apply Forall_cons in IH as [Hl Hls].
      constructor; [by constructor|done].
Qed.

Section BlankLines.
Context `{FM : FloatModel}.

Lemma blank_line_base (read_charge : bool) (line : str)
    (st : list (list value) * list (list value) * list (list value)) :
  all is_space line → LD.from_file_line read_charge line st = Ok st.
Proof.
  intros Hb. unfold LD.from_file_line. destruct st as [[masses box] atoms].
  rewrite (blank_no_match is_digit _ line digit_not_space Hb
             : search masses_pattern line = None).
  rewrite (blank_no_group is_num_char _ line num_char_not_space Hb
             : search box_pattern_basic line = None).
  destruct read_charge.
  - by rewrite (blank_no_match is_digit _ line digit_not_space Hb
                  : search atoms_pattern line = None).
  - by rewrite (blank_no_match is_digit _ line digit_not_space Hb
                  : search atoms_pattern_atomic line = None).
Qed.

Lemma blank_line_force_field (line : str) (st : FF.locals) :
  all is_space line → FF.from_file_line line st = Ok st.
Proof.
  intros Hb. unfold FF.from_file_line, FF.read_tokens, FF.read_general,
    FF.read_bonded.
  destruct st.
  rewrite (blank_no_match is_digit _ line digit_not_space Hb
             : search types_pattern line = None).
  rewrite (blank_no_match is_digit _ line digit_not_space Hb
             : search masses_pattern line = None).
  rewrite (blank_no_match is_num_char _ line num_char_not_space Hb
             : search box_pattern line = None).
  rewrite (blank_no_match is_digit _ line digit_not_space Hb
             : search general_coeff_pattern line = None).
  rewrite (blank_no_match is_digit _ line digit_not_space Hb
             : search atoms_pattern line = None).
  rewrite (blank_no_match is_digit _ line digit_not_space Hb
             : search bond_data_pattern line = None).
  rewrite (blank_no_match is_digit _ line digit_not_space Hb
             : search angle_data_pattern line = None).
  rewrite (blank_no_match is_digit _ line digit_not_space Hb
             : search dihedral_data_pattern line = None).
  rewrite !blank_no_section by (done || set_solver).
  rewrite (split_blank line Hb).
  by destruct v_read_pair_coeffs, v_read_bond_coeffs, v_read_angle_coeffs,
    v_read_dihedral_coeffs, v_read_improper_coeffs.
Qed.

End BlankLines.

(** ** A data file, for the examples *)

Definition example_text : str :=
  concat
    ((λ l, lit l ++ [newline]) <$>
     ["Data file generated by pymatgen"; "";
      "2 atoms"; "1 bonds"; "0 angles"; "";
      "2 atom types"; "1 bond types"; "0 angle types"; "1 improper types"; "";
      "0.0 10.0 xlo xhi"; "0.0 10.0 ylo yhi"; "0.0 10.0 zlo zhi"; "";
      "Masses "; ""; "1 1.008"; "2 12.011"; "";
      "Pair Coeffs "; ""; "1 0.1 0.2"; "2 0.3 0.4"; "";
      "Bond Coeffs "; ""; "1 300.0 1.09"; "";
      "Improper Coeffs "; ""; "1 10.5 -1 2"; "";
      "Atoms "; ""; "1 1 2 0.0 0.0 0.0 0.0"; "2 1 1 0.0 1.09 0.0 0.0"; "";
      "Bonds "; ""; "1 1 1 2"]%string).

Definition example_record : result (@FF.t literal_floats) :=
  Eval vm_compute in @FF.from_file literal_floats example_text.

Lemma example_record_evaluated :
  @FF.from_file literal_floats example_text = example_record.
Proof. vm_cast_no_check (eq_refl example_record). Qed.

Lemma example_text_parsed :
  ∃ r, @FF.from_file literal_floats example_text = Ok r
       ∧ FF.improper_coeffs r ≠ [] ∧ FF.pair_coeffs r ≠ [].
Proof.
  rewrite example_record_evaluated. unfold example_record.
  eexists. split; [reflexivity|]. by split.
Qed.

Section ParserProperties.
Context `{FM : FloatModel}.

(** X1: the parser of force-field data files never reads an improper
    record: whatever the text, the record it returns has an empty table of
    improper dihedrals, and so an improper count of zero. *)
Theorem parser_reads_no_impropers (text : str) (r : FF.t) :
  FF.from_file text = Ok r →
  FF.imdihedrals_data r = [] ∧ FF.nimdihs r = 0.
Proof.
  intros H. apply from_file_Ok in H as (st & Hst & ->).
  apply parser_improper_records in Hst. simpl. by rewrite Hst.
Qed.

(** X2: the parser reads a bond, angle or dihedral record only once an
    atom record has been read: a parsed record without atoms has no bond,
    no angle and no dihedral. *)
Theorem bonded_rows_need_atoms (text : str) (r : FF.t) :
  FF.from_file text = Ok r →
  LD.atoms_data (FF.base r) = [] →
  FF.bonds_data r = [] ∧ FF.angles_data r = [] ∧ FF.dihedrals_data r = [].
Proof.
  intros H. apply from_file_Ok in H as (st & Hst & ->). simpl.
  exact (parser_bonded_records text st Hst).
Qed.


(** X4: blank lines are ignored by both parsers, in every state of the
    loop: a text with lines of blanks inserted between two of its lines is
    parsed like the text without them. *)
Theorem blank_lines_ignored (t1 b t2 : str) :
  ends_line t1 → all is_space b →
  FF.from_file (t1 ++ (b ++ [newline]) ++ t2) = FF.from_file (t1 ++ t2)
  ∧ ∀ read_charge,
      LD.from_file (t1 ++ (b ++ [newline]) ++ t2) read_charge
      = LD.from_file (t1 ++ t2) read_charge.
Proof.
  intros Ht1 Hb.
  assert (Hend : ends_line (b ++ [newline])).
  { right. by rewrite last_snoc. }
  assert (Hblank : Forall (all is_space) (readlines (b ++ [newline]))).
  { apply readlines_class, all_app. split; [done|]. by repeat constructor. }
  assert (Hlines : readlines (t1 ++ (b ++ [newline]) ++ t2)
                   = readlines t1 ++ readlines (b ++ [newline]) ++ readlines t2).
  { by rewrite (readlines_app t1 _ Ht1), (readlines_app _ t2 Hend). }
  split; [|intros read_charge]; unfold FF.from_file, LD.from_file;
    rewrite Hlines, (readlines_app t1 t2 Ht1), !for_each_app.
  - destruct (for_each (readlines t1) _ _) as [st|e]; [|done]. simpl.
    rewrite for_each_app, for_each_skip; [done|].
    eapply Forall_impl; [exact Hblank|]. intros line Hline s.
    by apply blank_line_force_field.
  - destruct (for_each (readlines t1) _ _) as [st|e]; [|done]. simpl.
    rewrite for_each_app, for_each_skip; [done|].
    eapply Forall_impl; [exact Hblank|]. intros line Hline s.
    by apply blank_line_base.
Qed.

End ParserProperties.

Lemma parser_reads_no_impropers_witness :
  ∃ r, @FF.from_file literal_floats example_text = Ok r
       ∧ FF.improper_coeffs r ≠ []
       ∧ FF.imdihedrals_data r = [] ∧ FF.nimdihs r = 0.
Proof.
  destruct example_text_parsed as (r & Hr & Hic & _). exists r.
  split; [exact Hr|]. split; [exact Hic|].
  exact (parser_reads_no_impropers example_text r Hr).
Defined.

Definition bond_line_record : result (@FF.t literal_floats) :=
  Eval vm_compute in @FF.from_file literal_floats (lit "1 1 1 2").

Lemma bond_line_evaluated :
  @FF.from_file literal_floats (lit "1 1 1 2") = bond_line_record.
Proof. vm_cast_no_check (eq_refl bond_line_record). Qed.

Lemma bond_line_parsed :
  ∃ r, @FF.from_file literal_floats (lit "1 1 1 2") = Ok r
       ∧ LD.atoms_data (FF.base r) = [].
Proof.
  rewrite bond_line_evaluated. unfold bond_line_record.
  eexists. by split; [reflexivity|].
Qed.

Lemma bonded_rows_need_atoms_witness :
  ∃ r, @FF.from_file literal_floats (lit "1 1 1 2") = Ok r
       ∧ LD.atoms_data (FF.base r) = []
       ∧ FF.bonds_data r = [].
Proof.
  destruct bond_line_parsed as (r & Hr & Hat). exists r.
  split; [exact Hr|]. split; [exact Hat|].
  exact (proj1 (bonded_rows_need_atoms (lit "1 1 1 2") r Hr Hat)).
Defined.


Lemma blank_lines_ignored_witness :
  ends_line (lit "2 atom types" ++ [newline])
  ∧ all is_space (lit "  ")
  ∧ @FF.from_file literal_floats
      ((lit "2 atom types" ++ [newline]) ++ (lit "  " ++ [newline])
       ++ lit "1 12.011")
    = @FF.from_file literal_floats
        ((lit "2 atom types" ++ [newline]) ++ lit "1 12.011").
Proof.
  assert (H1 : ends_line (lit "2 atom types" ++ [newline])) by (by right).
  assert (H2 : all is_space (lit "  ")) by (by repeat constructor).
  exact (conj H1 (conj H2
           (proj1 (@blank_lines_ignored literal_floats _ _ (lit "1 12.011")
                     H1 H2)))).
Defined.


(** ** SectionWriter: the box and the blocks *)

Section WriterProperties.
Context `{FM : FloatModel}.

(** A box the writer can print: three rows of two entries at least. *)
Definition box_shape (box : list (list value)) : Prop :=
  ∀ i, i < 3 → ∃ row, box !! i = Some row ∧ 2 ≤ length row.

Lemma box_entry_Ok (box : list (list value)) (i j : nat) (v : value) :
  LD.box_entry box i j = Ok v ↔ ∃ row, box !! i = Some row ∧ row !! j = Some v.
Proof.
  unfold LD.box_entry. destruct (box !! i) as [row|]; simpl.
  - rewrite or_raise_Ok. split; [by exists row|]. by intros (? & [= <-] & ?).
  - split; [done|]. by intros (? & [=] & _).
Qed.

Lemma box_entry_Raise (box : list (list value)) (i j : nat) (e : exn) :
  LD.box_entry box i j = Raise e → e = IndexError.
Proof.
  unfold LD.box_entry. destruct (box !! i) as [row|]; simpl; [|congruence].
  destruct (row !! j); simpl; congruence.
Qed.

Lemma box_text_result (box : list (list value)) :
  (box_shape box ∧ ∃ text, LD.box_text box = Ok text)
  ∨ (¬ box_shape box ∧ LD.box_text box = Raise IndexError).
Proof.
  destruct (LD.box_text box) as [text|e] eqn:H.
  - left. split; [|by exists text]. unfold LD.box_text in H.
    apply bind_Ok in H as (x0 & _ & H). apply bind_Ok in H as (x1 & H0 & H).
    apply bind_Ok in H as (y0 & _ & H). apply bind_Ok in H as (y1 & H1 & H).
    apply bind_Ok in H as (z0 & _ & H). apply bind_Ok in H as (z1 & H2 & H).
    apply box_entry_Ok in H0 as (r0 & Hr0 & Hv0).
    apply box_entry_Ok in H1 as (r1 & Hr1 & Hv1).
    apply box_entry_Ok in H2 as (r2 & Hr2 & Hv2).
    apply lookup_lt_Some in Hv0, Hv1, Hv2.
    intros [|[|[|i]]] Hi; [by eexists..|lia].
  - right.
    assert (He : e = IndexError ∧ ¬ box_shape box); [|by destruct He as [-> ?]].
    assert (Hget : box_shape box → ∀ i j, i < 3 → j < 2 →
                   ∃ v, LD.box_entry box i j = Ok v).
    { intros Hs i j Hi Hj. destruct (Hs i Hi) as (row & Hrow & Hlen).
      destruct (lookup_lt_is_Some_2 row j) as [v Hv]; [lia|].
      exists v. apply box_entry_Ok. by exists row. }
    unfold LD.box_text in H.
    repeat match type of H with
      | (LD.box_entry box ?i ?j ≫= _) = Raise _ =>
          let E := fresh "E" in
          destruct (LD.box_entry box i j) as [?|?] eqn:E; simpl in H;
            [|injection H as <-; split; [by eapply box_entry_Raise|];
              intros Hs; destruct (Hget Hs i j) as [? ?]; [lia..|congruence]]
      end.
    done.
Qed.

(** X5: the writers need the box: the text of a record is returned
    exactly when its box has three rows of at least two entries; for every
    other box the writer raises an IndexError (also for a record a parser
    returned from a text with fewer than three box lines). *)
Theorem writer_needs_box :
  (∀ r : LD.t,
     (box_shape (LD.box_size r) ∧ ∃ text, LD.__str__ r = Ok text)
     ∨ (¬ box_shape (LD.box_size r) ∧ LD.__str__ r = Raise IndexError))
  ∧ (∀ r : FF.t,
       (box_shape (LD.box_size (FF.base r)) ∧ ∃ text, FF.__str__ r = Ok text)
       ∨ (¬ box_shape (LD.box_size (FF.base r))
          ∧ FF.__str__ r = Raise IndexError)).
Proof.
  split; intros r; unfold LD.__str__, FF.__str__.
  - destruct (box_text_result (LD.box_size r)) as [[Hs [t ->]]|[Hs ->]].
    + left. split; [done|]. by eexists.
    + by right.
  - destruct (box_text_result (LD.box_size (FF.base r))) as [[Hs [t ->]]|[Hs ->]].
    + left. split; [done|]. by eexists.
    + by right.
Qed.

(** The coefficients the writer prints for a family whose records are
    [records]: none when there is no record. *)
Definition written_coeffs (coeffs records : list (list value))
  : list (list value) :=
  match records with [] => [] | _ :: _ => coeffs end.

(** X6: dihedral (improper) coefficients are written only when there is
    a dihedral (improper) record: the text of a record without dihedral
    records is the text of the same record without dihedral coefficients. *)
Theorem coefficients_without_records_not_written
    (box masses pc bc ac dc ic atoms bonds angles dih imdih : list (list value)) :
  FF.__str__ (FF.__init__ box masses pc bc ac dc ic atoms bonds angles dih imdih)
  = FF.__str__
      (FF.__init__ box masses pc bc ac (written_coeffs dc dih)
         (written_coeffs ic imdih) atoms bonds angles dih imdih).
Proof. by destruct dih, imdih. Qed.

(** The record without its improper coefficients. *)
Definition without_improper_coeffs (r : FF.t) : FF.t :=
  FF.__init__ (LD.box_size (FF.base r)) (LD.atomic_masses (FF.base r))
    (FF.pair_coeffs r) (FF.bond_coeffs r) (FF.angle_coeffs r)
    (FF.dihedral_coeffs r) [] (LD.atoms_data (FF.base r)) (FF.bonds_data r)
    (FF.angles_data r) (FF.dihedrals_data r) (FF.imdihedrals_data r).

(** X7: improper coefficients do not survive reading and writing: the
    text written for a record the parser returned is the text of that
    record without its improper coefficients. *)
Theorem parsed_impropers_not_written (text : str) (r : FF.t) :
  FF.from_file text = Ok r →
  FF.__str__ r = FF.__str__ (without_improper_coeffs r).
Proof.
  intros H. apply from_file_Ok in H as (st & Hst & ->).
  apply parser_improper_records in Hst. unfold without_improper_coeffs.
  simpl. by rewrite Hst.
Qed.

End WriterProperties.

Lemma parsed_impropers_not_written_witness :
  ∃ r, @FF.from_file literal_floats example_text = Ok r
       ∧ FF.improper_coeffs r ≠ []
       ∧ FF.__str__ r = FF.__str__ (without_improper_coeffs r).
Proof.
  destruct example_text_parsed as (r & Hr & Hic & _). exists r.
  split; [exact Hr|]. split; [exact Hic|].
  exact (parsed_impropers_not_written example_text r Hr).
Defined.


(** ** The builders: what the records refer to *)

Section BuilderProperties.
Context `{FM : FloatModel}.

Lemma locate_lt (sizes : list nat) :
  ∀ nums g t shift a p,
    locate g t shift sizes nums a = Some p →
    a < shift + total_atoms sizes nums.
Proof.
  induction sizes as [|natoms sizes IH]; intros [|n nums] g t shift a p;
    simpl; try done.
  destruct (decide (shift ≤ a < shift + natoms * n)) as [Hin|Hout].
  - intros _. lia.
  - intros H. apply IH in H. lia.
Qed.

(** The sites of the molecule and the rows of the loop over them. *)
Definition row_of_site (atomic_masses_dict : gmap string (list value))
    (site : FF.Site) (row : list value) : Prop :=
  ∃ entry atom_type,
    atomic_masses_dict !! FF.symbol site = Some entry
    ∧ entry !! 0 = Some atom_type
    ∧ length row = 7
    ∧ row !! 2 = Some atom_type
    ∧ row !! 4 = Some (VFloat (FF.x site))
    ∧ row !! 5 = Some (VFloat (FF.y site))
    ∧ row !! 6 = Some (VFloat (FF.z site)).

Lemma atoms_loop_sites (atomic_masses_dict : gmap string (list value))
    (topologies : list FF.Topology) (atom_to_mol : gmap nat (nat * nat))
    (molecule : list FF.Site) :
  ∀ k acc rows,
    for_each (zip (seq k (length molecule)) molecule)
      (λ '(i, site) atoms_data,
         entry ← or_raise KeyError (atomic_masses_dict !! FF.symbol site);
         atom_type ← or_raise IndexError (entry !! 0);
         let atom_id := i + 1 in
         m ← or_raise KeyError (atom_to_mol !! i);
         let mol_type := m.1 + 1 in
         let mol_atom_id := m.2 + 1 in
         charge ← FF.atom_charge topologies mol_type mol_atom_id;
         Ok (atoms_data ++
               [[VInt (Z.of_nat atom_id); VInt (Z.of_nat mol_type); atom_type;
                 charge; VFloat (FF.x site); VFloat (FF.y site);
                 VFloat (FF.z site)]]))
      acc = Ok rows →
    ∃ new,
      rows = acc ++ new
      ∧ Forall2 (row_of_site atomic_masses_dict) molecule new.
Proof.
  induction molecule as [|site molecule IH]; intros k acc rows; simpl.
  - intros [= <-]. exists []. by rewrite app_nil_r.
  - destruct (atomic_masses_dict !! FF.symbol site) as [entry|] eqn:He;
      simpl; [|done].
    destruct (entry !! 0) as [atom_type|] eqn:Ht; simpl; [|done].
    destruct (atom_to_mol !! k) as [m|]; simpl; [|done].
    destruct (FF.atom_charge topologies (m.1 + 1) (m.2 + 1)) as [charge|];
      simpl; [|done].
    intros Hrest. apply IH in Hrest as (new & -> & Hnew).
    eexists (_ :: new). split; [by rewrite <- app_assoc|].
    constructor; [|done]. by exists entry, atom_type.
Qed.

(** X8: [get_atoms_data] returns one record per site of the assembled
    molecule, in the order of the sites: its third field is the atom type,
    the first element of the entry of the site's symbol in the mass table,
    and its last three fields are the site's coordinates.  It returns only
    when the molecule has no more sites than the assembly has atoms and
    every symbol has an entry; otherwise it raises. *)
Theorem atom_records_follow_sites mols mols_number molecule atomic_masses_dict
    topologies atoms_data m2a :
  FF.get_atoms_data mols mols_number molecule atomic_masses_dict topologies
  = Ok (atoms_data, m2a) →
  length molecule ≤ total_atoms (length <$> mols) mols_number
  ∧ Forall2 (row_of_site atomic_masses_dict) molecule atoms_data.
Proof.
  intros H. pose proof (get_atoms_data_spec _ _ _ _ _ _ _ H) as Hspec.
  cbv zeta in Hspec. destruct Hspec as (_ & _ & Hlen & Hrows). split.
  - destruct (decide (length molecule = 0)) as [->|Hne]; [lia|].
    destruct (lookup_lt_is_Some_2 atoms_data (length molecule - 1))
      as [row Hrow]; [lia|].
    apply Hrows in Hrow as (site & g & t & k & a & c & _ & Hloc & _).
    apply locate_lt in Hloc. lia.
  - unfold FF.get_atoms_data in H.
    apply bind_Ok in H as ([[a2m m2a'] shift] & _ & H).
    apply bind_Ok in H as (rows & Hloop & [= <- <-]).
    by apply atoms_loop_sites in Hloop as (new & -> & Hnew).
Qed.

(** X9: the charges are read only when the first topology has charges:
    when it has none, every atom record carries the charge 0.0, whatever
    the topologies of the other molecule types hold. *)
Theorem charges_need_first_topology mols mols_number molecule
    atomic_masses_dict topologies atoms_data m2a t0 :
  FF.get_atoms_data mols mols_number molecule atomic_masses_dict topologies
  = Ok (atoms_data, m2a) →
  topologies !! 0 = Some t0 →
  FF.charges t0 = None →
  ∀ row, row ∈ atoms_data → row !! 3 = Some (VFloat float_zero).
Proof.
  intros H Ht0 Hcharges row Hrow.
  apply get_atoms_data_spec in H as (_ & _ & _ & Hrows).
  apply list_elem_of_lookup in Hrow as [i Hi].
  apply Hrows in Hi as (site & g & t & k & a & c & _ & _ & Hc & ->).
  unfold FF.atom_charge in Hc. rewrite Ht0 in Hc. simpl in Hc.
  rewrite Hcharges in Hc. by injection Hc as <-.
Qed.

(** *** The bonded records *)

Lemma py_index_elem {A : Type} (l : list A) (i : Z) (x : A) :
  py_index l i = Ok x → x ∈ l.
Proof.
  unfold py_index. cbv zeta.
  destruct (decide _) as [_|_]; [|done].
  destruct (l !! _) as [y|] eqn:E; [|done].
  intros [= <-]. by eapply list_elem_of_lookup_2.
Qed.

Lemma resolve_Some (param_map : gmap label Z) (l : label) (c : Z) :
  FF.resolve param_map l = Ok (Some c) → ∃ key, param_map !! key = Some c.
Proof.
  unfold FF.resolve. cbv zeta.
  destruct (FF.truthy (FF.lookup_key param_map l)); [|done].
  destruct (FF.lookup_key param_map l) as [key|]; simpl; [|done].
  destruct (param_map !! key) as [c'|] eqn:E; simpl; [|done].
  intros [= <-]. by exists key.
Qed.

(** A bonded record: its type is an id of the map, and its atoms are
    atoms of the translation table. *)
Definition bonded_row (param_map : gmap label Z)
    (molid_to_atomid : list (list nat)) (row : list value) : Prop :=
  ∃ id c atoms,
    row = VInt id :: VInt c :: atoms
    ∧ (∃ key, param_map !! key = Some c)
    ∧ Forall (λ v, ∃ a, v = VInt (Z.of_nat a + 1) ∧ a ∈ concat molid_to_atomid)
        atoms.

Lemma param_rows_bonded param_name param_map mols mols_number topologies
    molid_to_atomid rows :
  FF.get_param_data param_name param_map mols mols_number topologies
    molid_to_atomid = Ok rows →
  Forall (bonded_row param_map molid_to_atomid) rows.
Proof.
  unfold FF.get_param_data. intros H.
  apply bind_Ok in H as (t0 & _ & H).
  destruct (FF.params t0 !! param_name) as [[[|e es]|]|];
    try (injection H as <-; constructor).
  apply bind_Ok in H as (items & _ & H).
  apply bind_Ok in H as ([skip data] & Hloop & [= <-]).
  revert Hloop.
  apply (for_each_invariant
           (λ sd : nat * list (list value),
              Forall (bonded_row param_map molid_to_atomid) sd.2));
    [|constructor].
  intros [param_id [[mol_id mol_type] mol_param_id]] [skip0 data0] [skip1 data1]
    Hdata Hstep. simpl in *.
  apply bind_Ok in Hstep as (param_obj & _ & Hstep).
  apply bind_Ok in Hstep as (param & _ & Hstep).
  apply bind_Ok in Hstep as (atomids & Hatoms & Hstep).
  apply bind_Ok in Hstep as (resolved & Hres & Hstep).
  destruct resolved as [c|]; injection Hstep as <- <-; [|done].
  apply Forall_app. split; [done|]. constructor; [|constructor].
  exists (Z.of_nat param_id + 1 - Z.of_nat skip0)%Z, c, atomids.
  split; [done|]. split; [by eapply resolve_Some|].
  revert Hatoms.
  apply (for_each_invariant
           (λ acc : list value,
              Forall (λ v, ∃ a, v = VInt (Z.of_nat a + 1)
                                ∧ a ∈ concat molid_to_atomid) acc));
    [|constructor].
  intros atomid acc acc' Hacc Hstep.
  apply bind_Ok in Hstep as (ids & Hids & Hstep).
  apply bind_Ok in Hstep as (a & Ha & [= <-]).
  apply Forall_app. split; [done|]. constructor; [|constructor].
  exists a. split; [done|]. apply or_raise_Ok in Hids.
  apply py_index_elem in Ha. apply list_elem_of_In, in_concat. exists ids.
  split; apply list_elem_of_In; [by eapply list_elem_of_lookup_2|done].
Qed.

(** The map of [get_param_coeff] sends a label to the id of a row. *)
Lemma coeff_loop_range (items : list (label * list value)) :
  ∀ (k : nat) (cs : list (list value)) (m : gmap label Z),
    let r :=
      foldl
        (λ '(param_coeffs, param_map) '(i, item),
           (param_coeffs ++ [VInt (Z.of_nat i + 1) :: item.2],
            <[item.1 := (Z.of_nat i + 1)%Z]> param_map))
        (cs, m) (zip (seq k (length items)) items) in
    ∀ key c, r.2 !! key = Some c →
      m !! key = Some c
      ∨ ∃ i item, items !! i = Some item ∧ c = (Z.of_nat (k + i) + 1)%Z.
Proof.
  induction items as [|[key0 v0] items IH]; intros k cs m; simpl.
  - intros key c H. by left.
  - intros key c H. apply IH in H as [H|(i & item & Hi & ->)].
    + destruct (decide (key0 = key)) as [->|Hne].
      * rewrite lookup_insert_eq in H. injection H as <-. right.
        exists 0, (key, v0). split; [done|]. by rewrite Nat.add_0_r.
      * rewrite lookup_insert_ne in H by done. by left.
    + right. exists (S i), item. split; [done|]. do 2 f_equal. lia.
Qed.

Lemma coeff_map_range (forcefield : FF.ForceField) (param_name : string)
    (coeffs : list (list value)) (param_map : gmap label Z) :
  FF.get_param_coeff forcefield param_name = Ok (coeffs, param_map) →
  ∀ key c, param_map !! key = Some c →
    ∃ i values, c = (Z.of_nat i + 1)%Z ∧ coeffs !! i = Some (VInt c :: values).
Proof.
  unfold FF.get_param_coeff.
  destruct (forcefield !! param_name) as [[[|item items]|]|]; try done;
    try (intros [= <- <-] key c H; by rewrite lookup_empty in H).
  unfold enumerate.
  pose proof (coeff_loop_spec (item :: items) 0 [] ∅) as (Hrows & _).
  pose proof (coeff_loop_range (item :: items) 0 [] ∅) as Hrange.
  cbv zeta in Hrange. revert Hrows Hrange.
  generalize (item :: items) as l. intros l.
  destruct (foldl _ _ _) as [cs m]. simpl.
  intros -> Hrange [= <- <-] key c Hkey.
  apply Hrange in Hkey as [Hkey|(i & it & Hi & ->)].
  { by rewrite lookup_empty in Hkey. }
  exists i, it.2. split; [done|].
  rewrite list_lookup_imap, Hi. done.
Qed.

(** X10: the bonded records refer to rows of the coefficient table: with
    the map [get_param_coeff] returns for a family, the second field of
    every record [get_param_data] returns is the id [c] of a row of the
    coefficient table, [1 <= c <= len(coeffs)], and that row starts with
    [c]. *)
Theorem record_types_are_coefficient_ids forcefield coeff_name coeffs param_map
    param_name mols mols_number topologies molid_to_atomid rows :
  FF.get_param_coeff forcefield coeff_name = Ok (coeffs, param_map) →
  FF.get_param_data param_name param_map mols mols_number topologies
    molid_to_atomid = Ok rows →
  ∀ row, row ∈ rows →
    ∃ i values,
      row !! 1 = Some (VInt (Z.of_nat i + 1))
      ∧ i < length coeffs
      ∧ coeffs !! i = Some (VInt (Z.of_nat i + 1) :: values).
Proof.
  intros Hcoeff Hdata row Hrow.
  apply param_rows_bonded in Hdata. rewrite Forall_forall in Hdata.
  destruct (Hdata row Hrow) as (id & c & atoms & -> & [key Hkey] & _).
  destruct (coeff_map_range _ _ _ _ Hcoeff key c Hkey) as (i & values & -> & Hi).
  exists i, values. split; [done|]. split; [|done].
  by eapply lookup_lt_Some.
Qed.

(** X11: the bonded records refer to atoms of the assembly: with the
    translation table [get_atoms_data] returns, every atom id of every
    record [get_param_data] returns is between 1 and the number of atoms of
    the assembly. *)
Theorem record_atoms_are_assembly_atoms mols mols_number molecule
    atomic_masses_dict topologies atoms_data m2a param_name param_map rows :
  FF.get_atoms_data mols mols_number molecule atomic_masses_dict topologies
  = Ok (atoms_data, m2a) →
  FF.get_param_data param_name param_map mols mols_number topologies m2a
  = Ok rows →
  ∀ row v, row ∈ rows → v ∈ drop 2 row →
    ∃ a, v = VInt (Z.of_nat a)
         ∧ 1 ≤ a ≤ total_atoms (length <$> mols) mols_number.
Proof.
  intros Hatoms Hdata row v Hrow Hv.
  apply get_atoms_data_spec in Hatoms as (_ & -> & _).
  apply param_rows_bonded in Hdata. rewrite Forall_forall in Hdata.
  destruct (Hdata row Hrow) as (id & c & atoms & -> & _ & Hall).
  simpl in Hv. rewrite Forall_forall in Hall.
  destruct (Hall v Hv) as (a & -> & Ha).
  rewrite concat_translation in Ha. apply elem_of_seq in Ha.
  exists (S a). split; [f_equal; lia|lia].
Qed.

End BuilderProperties.

Lemma atom_records_follow_sites_witness :
  ∃ atoms_data m2a,
    FF.get_atoms_data example_mols example_numbers example_molecule
      example_masses example_topologies = Ok (atoms_data, m2a)
    ∧ length example_molecule
      ≤ total_atoms (length <$> example_mols) example_numbers
    ∧ Forall2 (row_of_site example_masses) example_molecule atoms_data.
Proof.
  destruct example_atoms_data as (atoms_data & m2a & H).
  exists atoms_data, m2a. split; [exact H|].
  exact (atom_records_follow_sites _ _ _ _ _ _ _ H).
Defined.

Lemma charges_need_first_topology_witness :
  ∃ atoms_data m2a t0,
    FF.get_atoms_data example_mols example_numbers example_molecule
      example_masses example_topologies = Ok (atoms_data, m2a)
    ∧ example_topologies !! 0 = Some t0
    ∧ FF.charges t0 = None
    ∧ ∀ row, row ∈ atoms_data → row !! 3 = Some (VFloat float_zero).
Proof.
  destruct example_atoms_data as (atoms_data & m2a & H).
  eexists atoms_data, m2a, _. split; [exact H|].
  split; [reflexivity|]. split; [reflexivity|].
  exact (charges_need_first_topology _ _ _ _ _ _ _ _ H eq_refl eq_refl).
Defined.

(** A force field for the examples: one bond type. *)
Definition example_forcefield : @FF.ForceField literal_floats :=
  {[ "bonds"%string :=
       Some [(["C"; "H"]%string,
              [@VFloat literal_floats (lit "300.0");
               @VFloat literal_floats (lit "1.09")])] ]}.

Definition example_coeffs_result :=
  Eval vm_compute in FF.get_param_coeff example_forcefield "bonds".

Lemma example_coeffs_evaluated :
  FF.get_param_coeff example_forcefield "bonds" = example_coeffs_result.
Proof. vm_cast_no_check (eq_refl example_coeffs_result). Qed.

Definition example_map : gmap label Z :=
  match example_coeffs_result with Ok cm => cm.2 | Raise _ => ∅ end.

Definition example_typed_bonds_result :=
  Eval vm_compute in
    FF.get_param_data "bonds" example_map example_mols example_numbers
      example_topologies [[0; 1]; [2; 3]; [4; 5]; [6]; [7]].

Lemma example_typed_bonds_evaluated :
  FF.get_param_data "bonds" example_map example_mols example_numbers
    example_topologies [[0; 1]; [2; 3]; [4; 5]; [6]; [7]]
  = example_typed_bonds_result.
Proof. vm_cast_no_check (eq_refl example_typed_bonds_result). Qed.

Lemma record_types_are_coefficient_ids_witness :
  ∃ coeffs rows,
    FF.get_param_coeff example_forcefield "bonds" = Ok (coeffs, example_map)
    ∧ FF.get_param_data "bonds" example_map example_mols example_numbers
        example_topologies [[0; 1]; [2; 3]; [4; 5]; [6]; [7]] = Ok rows
    ∧ length rows = 3
    ∧ ∀ row, row ∈ rows →
        ∃ i values,
          row !! 1 = Some (VInt (Z.of_nat i + 1))
          ∧ i < length coeffs
          ∧ coeffs !! i = Some (VInt (Z.of_nat i + 1) :: values).
Proof.
  pose proof example_coeffs_evaluated as H1.
  pose proof example_typed_bonds_evaluated as H2.
  unfold example_coeffs_result in H1. unfold example_typed_bonds_result in H2.
  eexists _, _. split; [exact H1|]. split; [exact H2|].
  split; [reflexivity|].
  exact (record_types_are_coefficient_ids _ _ _ _ _ _ _ _ _ _ H1 H2).
Defined.

Lemma record_atoms_are_assembly_atoms_witness :
  ∃ atoms_data m2a rows,
    FF.get_atoms_data example_mols example_numbers example_molecule
      example_masses example_topologies = Ok (atoms_data, m2a)
    ∧ FF.get_param_data "bonds" {[ ["C"; "H"]%string := 1%Z ]} example_mols
        example_numbers example_topologies m2a = Ok rows
    ∧ length rows = 3
    ∧ ∀ row v, row ∈ rows → v ∈ drop 2 row →
        ∃ a, v = VInt (Z.of_nat a)
             ∧ 1 ≤ a ≤ total_atoms (length <$> example_mols) example_numbers.
Proof.
  pose proof example_atoms_evaluated as H1.
  pose proof example_bonds_evaluated as H2.
  unfold example_atoms_result in H1. unfold example_bonds_result in H2.
  eexists _, _, _. split; [exact H1|]. split; [exact H2|].
  split; [reflexivity|].
  exact (record_atoms_are_assembly_atoms _ _ _ _ _ _ _ _ _ _ H1 H2).
Defined.


(** ** Row patterns

    Most patterns of the parsers are row patterns: captured fields
    [(c1+)\s+(c2+)\s+ ... (cn+)], each of its own character class, after
    [^\s*] and before a tail. *)

Fixpoint fields (cs : list (ascii → bool)) (tail : list rx) : list rx :=
  match cs with
  | [] => tail
  | c :: cs' =>
      match cs' with
      | [] => Grp c :: tail
      | _ :: _ => Grp c :: Plus is_space :: fields cs' tail
      end
  end.

(** [spaced toks s rest]: [s] is the tokens [toks], with runs of blanks
    between them, followed by [rest]. *)
Inductive spaced : list str → str → str → Prop :=
  | spaced_last (t rest : str) : spaced [t] (t ++ rest) rest
  | spaced_cons (t sp : str) (toks : list str) (s rest : str) :
      all is_space sp → sp ≠ [] → spaced toks s rest →
      spaced (t :: toks) (t ++ sp ++ s) rest.

(** The fields of a row: each of its class, and not empty. *)
Definition fields_of (cs : list (ascii → bool)) (toks : list str) : Prop :=
  Forall2 (λ c t, all c t ∧ t ≠ []) cs toks.

Lemma fields_inv (cs : list (ascii → bool)) (tail : list rx) :
  cs ≠ [] →
  ∀ s gs,
    rmatch (fields cs tail) s = Some gs →
    ∃ toks rest gs',
      gs = toks ++ gs' ∧ fields_of cs toks ∧ spaced toks s rest
      ∧ rmatch tail rest = Some gs'.
Proof.
  induction cs as [|c cs IH]; [done|]. intros _ s gs H.
  destruct cs as [|c' cs].
  - simpl in H. apply rmatch_grp_inv in H as (t & rest & gs' & -> & Ht & Hne & Hr & ->).
    exists [t], rest, gs'. split; [done|]. split; [|split; [constructor|done]].
    by repeat constructor.
  - change (fields (c :: c' :: cs) tail)
      with (Grp c :: Plus is_space :: fields (c' :: cs) tail) in H.
    apply rmatch_grp_inv in H as (t & s1 & gs1 & -> & Ht & Hne & H & ->).
    apply rmatch_plus_inv in H as (sp & s2 & -> & Hsp & Hspne & H).
    apply IH in H as (toks & rest & gs' & -> & Htoks & Hs & Hr); [|done].
    exists (t :: toks), rest, gs'. split; [done|].
    split; [by constructor|]. split; [by constructor|done].
Qed.

Lemma fields_tokens (cs : list (ascii → bool)) (toks : list str) :
  Forall (λ c, ∀ a, c a = true → is_space a = false) cs →
  fields_of cs toks → Forall token toks.
Proof.
  intros Hcs H. induction H as [|c t cs toks [Ht Hne] H IH]; [constructor|].
  apply Forall_cons in Hcs as [Hc Hcs].
  constructor; [by eapply token_of_class|by apply IH].
Qed.

Lemma token_stops_blank (t s : str) : token t → stops is_space (t ++ s).
Proof.
  intros [Hne Ht]. destruct t as [|a t]; [done|]. simpl.
  apply Forall_cons in Ht as [Ha _]. by apply negb_true_iff in Ha.
Qed.

(** The tokens of a spaced row that ends at a blank or at the end. *)
Lemma split_spaced (toks : list str) (s rest : str) :
  spaced toks s rest → Forall token toks →
  stops (λ a, negb (is_space a)) rest →
  split s = toks ++ split rest.
Proof.
  induction 1 as [t rest|t sp toks s rest Hsp Hne Hs IH]; intros Htoks Hrest.
  - apply Forall_cons in Htoks as [Ht _]. by rewrite split_token.
  - apply Forall_cons in Htoks as [Ht Htoks].
    rewrite split_token; [|done|by apply stops_blank].
    rewrite split_blanks by done. by rewrite IH.
Qed.

(** The tokens of a spaced row, whatever follows: all but the last are
    tokens of the line. *)
Lemma split_spaced_front (toks : list str) (s rest : str) :
  spaced toks s rest → Forall token toks →
  ∃ t ts, split s = removelast toks ++ t :: ts.
Proof.
  induction 1 as [t rest|t sp toks s rest Hsp Hne Hs IH]; intros Htoks.
  - apply Forall_cons in Htoks as [Ht _]. simpl.
    by apply split_token_head.
  - apply Forall_cons in Htoks as [Ht Htoks].
    rewrite split_token; [|done|by apply stops_blank].
    rewrite split_blanks by done.
    destruct (IH Htoks) as (t' & ts & ->). exists t', ts.
    destruct toks as [|t0 toks]; [by inversion Hs|done].
Qed.

Lemma spaced_join (toks : list str) (rest : str) :
  toks ≠ [] → spaced toks (join (lit " ") toks ++ rest) rest.
Proof.
  induction toks as [|t toks IH]; [done|]. intros _.
  destruct toks as [|t' toks]; [constructor|].
  change (join (lit " ") (t :: t' :: toks))
    with (t ++ lit " " ++ join (lit " ") (t' :: toks)).
  rewrite <- !app_assoc. constructor; [by repeat constructor|done|].
  by apply IH.
Qed.

Lemma fields_hit (cs : list (ascii → bool)) (tail : list rx) (rest : str)
    (gs : list str) :
  Forall (λ c, ∀ a, c a = true → is_space a = false) cs →
  (∀ c, last cs = Some c → stops c rest) →
  rmatch tail rest = Some gs →
  ∀ toks,
    fields_of cs toks → cs ≠ [] →
    rmatch (fields cs tail) (join (lit " ") toks ++ rest) = Some (toks ++ gs).
Proof.
  intros Hcs Hlast Htail toks H.
  induction H as [|c t cs toks [Ht Hne] H IH]; [done|]. intros _.
  apply Forall_cons in Hcs as [Hc Hcs].
  destruct H as [|c' t' cs toks [Ht' Hne'] H].
  - simpl. apply rmatch_grp_hit; [done..| |done]. by apply Hlast.
  - change (fields (c :: c' :: cs) tail)
      with (Grp c :: Plus is_space :: fields (c' :: cs) tail).
    change (join (lit " ") (t :: t' :: toks))
      with (t ++ lit " " ++ join (lit " ") (t' :: toks)).
    rewrite <- !app_assoc.
    change ((t :: t' :: toks) ++ gs) with (t :: ((t' :: toks) ++ gs)).
    apply rmatch_grp_hit; [done..| |].
    { simpl. destruct (c " "%char) eqn:E; [|done]. apply Hc in E.
      by vm_compute in E. }
    apply (rmatch_plus_hit is_space _ (lit " ")); [by repeat constructor|done| |].
    + apply Forall_cons in Hcs as [Hc' _].
      change (join (lit " ") (t' :: toks))
        with (join (lit " ") ([t'] ++ toks)).
      destruct toks as [|t'' toks].
      * simpl. apply token_stops_blank. by eapply token_of_class.
      * change (join (lit " ") ([t'] ++ t'' :: toks))
          with (t' ++ lit " " ++ join (lit " ") (t'' :: toks)).
        rewrite <- app_assoc. apply token_stops_blank.
        by eapply token_of_class.
    + apply IH; [done| |done]. intros c0 Hc0. apply Hlast.
      by rewrite last_cons, Hc0.
Qed.

(** *** The tails of the patterns *)

(** The end of a line: nothing, or the newline. *)
Definition eol (e : str) : Prop := e = [] ∨ e = [newline].

Lemma eol_blank (e : str) : eol e → all is_space e.
Proof. intros [-> | ->]; by repeat constructor. Qed.

Lemma blank_stops (rest : str) :
  all is_space rest → stops (λ a, negb (is_space a)) rest.
Proof.
  intros H. destruct rest as [|a rest]; [done|]. simpl.
  apply Forall_cons in H as [Ha _]. by rewrite Ha.
Qed.

Lemma tail_eol_inv (rest : str) (gs : list str) :
  rmatch [Eol] rest = Some gs → all is_space rest ∧ gs = [].
Proof.
  intros H. apply rmatch_eol_inv in H as [He H]. injection H as <-.
  split; [by apply eol_blank|done].
Qed.

Lemma tail_blank_eol_inv (rest : str) (gs : list str) :
  rmatch [Star is_space; Eol] rest = Some gs → all is_space rest ∧ gs = [].
Proof.
  intros H. apply rmatch_star_inv in H as (sp & e & -> & Hsp & H).
  apply tail_eol_inv in H as [He ->]. split; [|done].
  apply all_app. by split.
Qed.

Lemma tail_eol_hit (e : str) : eol e → rmatch [Eol] e = Some [].
Proof. by intros [-> | ->]. Qed.

Lemma tail_blank_eol_hit (e : str) : eol e → rmatch [Star is_space; Eol] e = Some [].
Proof. by intros [-> | ->]. Qed.

Lemma eol_stops (c : ascii → bool) (e : str) :
  c newline = false → eol e → stops c e.
Proof. by intros Hc [-> | ->]. Qed.

(** *** Rows that are matched to their end *)

Lemma row_inv (cs : list (ascii → bool)) (tail : list rx) (line : str)
    (m : list str) :
  cs ≠ [] →
  Forall (λ c, ∀ a, c a = true → is_space a = false) cs →
  (∀ rest gs, rmatch tail rest = Some gs → all is_space rest ∧ gs = []) →
  rmatch (Star is_space :: fields cs tail) line = Some m →
  split line = m ∧ fields_of cs m.
Proof.
  intros Hne Hcs Htail H.
  apply rmatch_star_inv in H as (sp & s & -> & Hsp & H).
  apply fields_inv in H as (toks & rest & gs' & -> & Htoks & Hs & Hr); [|done].
  apply Htail in Hr as [Hrest ->]. rewrite app_nil_r.
  split; [|done]. rewrite split_blanks by done.
  rewrite (split_spaced toks s rest Hs).
  - by rewrite (split_blank rest), app_nil_r.
  - by eapply fields_tokens.
  - by apply blank_stops.
Qed.

Lemma row_hit (cs : list (ascii → bool)) (tail : list rx) (toks : list str)
    (e : str) :
  cs ≠ [] →
  Forall (λ c, ∀ a, c a = true → is_space a = false) cs →
  Forall (λ c, c newline = false) cs →
  rmatch tail e = Some [] →
  fields_of cs toks → eol e →
  rmatch (Star is_space :: fields cs tail) (join (lit " ") toks ++ e)
  = Some toks.
Proof.
  intros Hne Hcs Hnl Htail Htoks He.
  apply rmatch_star_skip.
  - pose proof (fields_tokens cs toks Hcs Htoks) as Htk.
    destruct Htoks as [|c t cs toks [Ht Htne] Htoks]; [done|].
    apply Forall_cons in Htk as [Htk _].
    destruct toks as [|t' toks].
    + simpl. by apply token_stops_blank.
    + change (join (lit " ") (t :: t' :: toks))
        with (t ++ lit " " ++ join (lit " ") (t' :: toks)).
      rewrite <- app_assoc. by apply token_stops_blank.
  - rewrite <- (app_nil_r toks) at 2. apply fields_hit; try done.
    intros c Hc. apply eol_stops; [|done].
    rewrite Forall_forall in Hnl. apply Hnl.
    destruct cs as [|c0 cs]; [done|].
    apply last_Some in Hc as [l' Hc]. rewrite Hc. apply elem_of_app. right.
    by left.
Qed.

Lemma no_blank_digits :
  Forall (λ c : ascii → bool, ∀ a, c a = true → is_space a = false)
    [is_digit; is_digit; is_digit; is_digit; is_digit; is_digit].
Proof. repeat constructor; apply digit_not_space. Qed.

Lemma masses_inv (line : str) (m : list str) :
  search masses_pattern line = Some m →
  split line = m ∧ fields_of [is_digit; is_mass_char] m.
Proof.
  apply (row_inv [is_digit; is_mass_char] [Eol]); [done| |apply tail_eol_inv].
  repeat constructor; [apply digit_not_space|apply mass_char_not_space].
Qed.

Lemma general_coeff_inv (line : str) (m : list str) :
  search general_coeff_pattern line = Some m →
  split line = m ∧ fields_of [is_digit; is_mass_char; is_mass_char] m.
Proof.
  apply (row_inv [is_digit; is_mass_char; is_mass_char] [Eol]);
    [done| |apply tail_eol_inv].
  repeat constructor; [apply digit_not_space|apply mass_char_not_space..].
Qed.

Lemma bond_data_inv (line : str) (m : list str) :
  search bond_data_pattern line = Some m →
  split line = m ∧ fields_of [is_digit; is_digit; is_digit; is_digit] m.
Proof.
  apply (row_inv [is_digit; is_digit; is_digit; is_digit] [Star is_space; Eol]);
    [done| |apply tail_blank_eol_inv].
  repeat constructor; apply digit_not_space.
Qed.

Lemma angle_data_inv (line : str) (m : list str) :
  search angle_data_pattern line = Some m →
  split line = m
  ∧ fields_of [is_digit; is_digit; is_digit; is_digit; is_digit] m.
Proof.
  apply (row_inv [is_digit; is_digit; is_digit; is_digit; is_digit]
           [Star is_space; Eol]); [done| |apply tail_blank_eol_inv].
  repeat constructor; apply digit_not_space.
Qed.

Lemma dihedral_data_inv (line : str) (m : list str) :
  search dihedral_data_pattern line = Some m →
  split line = m
  ∧ fields_of [is_digit; is_digit; is_digit; is_digit; is_digit; is_digit] m.
Proof.
  apply (row_inv [is_digit; is_digit; is_digit; is_digit; is_digit; is_digit]
           [Star is_space; Eol]); [done| |apply tail_blank_eol_inv].
  repeat constructor; apply digit_not_space.
Qed.

(** *** The patterns with a tail of their own *)

Lemma fields_of_two (c1 c2 : ascii → bool) (toks : list str) :
  fields_of [c1; c2] toks → ∃ t1 t2, toks = [t1; t2].
Proof.
  intros H. apply Forall2_length in H.
  destruct toks as [|t1 [|t2 [|t3 toks]]]; try done. by exists t1, t2.
Qed.

Lemma split_head (x : ascii) (s : str) :
  is_space x = false → ∃ t ts, split (x :: s) = (x :: t) :: ts.
Proof.
  intros Hx. simpl. rewrite Hx. destruct s as [|d s]; [by eexists _, _|].
  destruct (is_space d); [by eexists _, _|].
  destruct (split (d :: s)); by eexists _, _.
Qed.

Lemma types_tail_inv (rest : str) (gs : list str) :
  rmatch (Plus is_space :: chars "types" ++ [Eol]) rest = Some gs →
  gs = []
  ∧ ∃ sp e, rest = sp ++ lit "types" ++ e ∧ all is_space sp ∧ sp ≠ [] ∧ eol e.
Proof.
  intros H. apply rmatch_plus_inv in H as (sp & s & -> & Hsp & Hne & H).
  apply rmatch_cls_inv in H as (a1 & s1 & -> & H1 & H).
  apply rmatch_cls_inv in H as (a2 & s2 & -> & H2 & H).
  apply rmatch_cls_inv in H as (a3 & s3 & -> & H3 & H).
  apply rmatch_cls_inv in H as (a4 & s4 & -> & H4 & H).
  apply rmatch_cls_inv in H as (a5 & e & -> & H5 & H).
  apply rmatch_eol_inv in H as [He [= <-]].
  apply is_char_eq in H1 as <-, H2 as <-, H3 as <-, H4 as <-, H5 as <-.
  split; [done|]. by exists sp, e.
Qed.

Lemma types_inv (line : str) (m : list str) :
  search types_pattern line = Some m →
  ∃ n family,
    m = [n; family] ∧ split line = [n; family; lit "types"]
    ∧ fields_of [is_digit; is_alpha] [n; family].
Proof.
  unfold search. intros H.
  change types_pattern
    with (Star is_space
          :: fields [is_digit; is_alpha]
               (Plus is_space :: chars "types" ++ [Eol])) in H.
  apply rmatch_star_inv in H as (sp & s & -> & Hsp & H).
  apply fields_inv in H as (toks & rest & gs' & -> & Htoks & Hs & Hr); [|done].
  apply types_tail_inv in Hr as (-> & sp1 & e & -> & Hsp1 & Hne1 & He).
  rewrite app_nil_r.
  destruct (fields_of_two _ _ _ Htoks) as (n & family & ->).
  exists n, family. split; [done|]. split; [|done].
  rewrite split_blanks by done.
  rewrite (split_spaced _ _ _ Hs).
  - rewrite split_blanks by done.
    rewrite split_token; [by rewrite split_eol| |by apply stops_eol].
    split; [done|]. by repeat constructor.
  - eapply fields_tokens; [|done].
    repeat constructor; [apply digit_not_space|apply alpha_not_space].
  - by apply stops_blank.
Qed.

Lemma box_tail_inv (rest : str) (gs : list str) :
  rmatch (Plus is_space :: lo_hi) rest = Some gs →
  gs = []
  ∧ ∃ sp x s, rest = sp ++ x :: s ∧ all is_space sp ∧ sp ≠ []
              ∧ is_xyz x = true.
Proof.
  intros H. apply rmatch_plus_inv in H as (sp & s & -> & Hsp & Hne & H).
  apply rmatch_cls_inv in H as (x & s1 & -> & Hx & H).
  do 2 apply rmatch_cls_inv in H as (? & ? & -> & _ & H).
  apply rmatch_plus_inv in H as (sp2 & s2 & -> & _ & _ & H).
  do 3 apply rmatch_cls_inv in H as (? & ? & -> & _ & H).
  injection H as <-. split; [done|]. by eexists sp, x, _.
Qed.

(** A line the box pattern matches: two numbers, then a token that
    starts with [x], [y] or [z]. *)
Definition box_tokens (line : str) (m : list str) : Prop :=
  ∃ g1 g2 x t ts,
    m = [g1; g2] ∧ split line = g1 :: g2 :: (x :: t) :: ts
    ∧ is_xyz x = true ∧ fields_of [is_num_char; is_num_char] [g1; g2].

Lemma box_fields_inv (s : str) (m : list str) :
  rmatch (fields [is_num_char; is_num_char] (Plus is_space :: lo_hi)) s
  = Some m →
  box_tokens s m.
Proof.
  intros H.
  apply fields_inv in H as (toks & rest & gs' & -> & Htoks & Hs & Hr); [|done].
  apply box_tail_inv in Hr as (-> & sp1 & x & s1 & -> & Hsp1 & Hne1 & Hx).
  rewrite app_nil_r. destruct (fields_of_two _ _ _ Htoks) as (g1 & g2 & ->).
  destruct (split_head x s1 (xyz_not_space x Hx)) as (t' & ts & Hsplit).
  exists g1, g2, x, t', ts. split; [done|]. split; [|done].
  rewrite (split_spaced _ _ _ Hs).
  - rewrite split_blanks by done. by rewrite Hsplit.
  - eapply fields_tokens; [|done].
    repeat constructor; apply num_char_not_space.
  - by apply stops_blank.
Qed.

Lemma box_basic_inv (line : str) (m : list str) :
  search box_pattern_basic line = Some m → box_tokens line m.
Proof. apply box_fields_inv. Qed.

Lemma box_inv (line : str) (m : list str) :
  search box_pattern line = Some m → box_tokens line m.
Proof.
  unfold search. intros H.
  change box_pattern
    with (Star is_space
          :: fields [is_num_char; is_num_char] (Plus is_space :: lo_hi)) in H.
  apply rmatch_star_inv in H as (sp & s & -> & Hsp & H).
  apply box_fields_inv in H as (g1 & g2 & x & t & ts & -> & Hs & Hx & Hf).
  exists g1, g2, x, t, ts. by rewrite split_blanks.
Qed.

(** A line an atoms pattern of [n + 1] fields matches: [n] whole tokens,
    the first three of digits, and one more token at least. *)
Definition atom_tokens (cs : list (ascii → bool)) (line : str) (m : list str)
  : Prop :=
  ∃ front g t ts,
    m = front ++ [g] ∧ split line = front ++ t :: ts
    ∧ fields_of cs (front ++ [g]).

Lemma atoms_fields_inv (cs : list (ascii → bool)) (line : str) (m : list str) :
  cs ≠ [] →
  Forall (λ c, ∀ a, c a = true → is_space a = false) cs →
  rmatch (Star is_space :: fields cs [Star is_word]) line = Some m →
  atom_tokens cs line m.
Proof.
  intros Hne Hcs H.
  apply rmatch_star_inv in H as (sp & s & -> & Hsp & H).
  apply fields_inv in H as (toks & rest & gs' & -> & Htoks & Hs & Hr); [|done].
  apply rmatch_star_inv in Hr as (w & s1 & -> & _ & [= <-]).
  rewrite app_nil_r.
  destruct (split_spaced_front _ _ _ Hs (fields_tokens _ _ Hcs Htoks))
    as (t & ts & Hsplit).
  assert (Htne : toks ≠ []).
  { intros ->. apply Forall2_nil_inv_r in Htoks. done. }
  destruct (exists_last Htne) as (front & g & ->).
  rewrite removelast_last in Hsplit.
  exists front, g, t, ts. by rewrite split_blanks.
Qed.

Lemma atoms_inv (line : str) (m : list str) :
  search atoms_pattern line = Some m →
  atom_tokens [is_digit; is_digit; is_digit; is_num_char; is_num_char;
               is_num_char; is_num_char] line m.
Proof.
  apply (atoms_fields_inv
           [is_digit; is_digit; is_digit; is_num_char; is_num_char;
            is_num_char; is_num_char]); [done|].
  repeat constructor; first [apply digit_not_space|apply num_char_not_space].
Qed.

Lemma atoms_atomic_inv (line : str) (m : list str) :
  search atoms_pattern_atomic line = Some m →
  atom_tokens [is_digit; is_digit; is_digit; is_num_char; is_num_char;
               is_num_char] line m.
Proof.
  apply (atoms_fields_inv
           [is_digit; is_digit; is_digit; is_num_char; is_num_char;
            is_num_char]); [done|].
  repeat constructor; first [apply digit_not_space|apply num_char_not_space].
Qed.


(** ** Printing and reading integers *)

Lemma uint_digits (d : uint) :
  all is_digit (list_ascii_of_string (NilEmpty.string_of_uint d)).
Proof. induction d; simpl; by constructor. Qed.

Lemma uint_nonnil_printed (d : uint) :
  d ≠ Nil →
  NilZero.string_of_uint d = NilEmpty.string_of_uint d
  ∧ list_ascii_of_string (NilEmpty.string_of_uint d) ≠ [].
Proof. by destruct d. Qed.

Lemma str_int_digits (n : Z) :
  (0 ≤ n)%Z → all is_digit (str_int n) ∧ str_int n ≠ [].
Proof.
  intros Hn. unfold str_int. destruct n as [|p|p]; [| |lia].
  - split; [by repeat constructor|done].
  - simpl. destruct (uint_nonnil_printed (Pos.to_uint p)) as [-> Hne].
    { apply DecimalPos.Unsigned.to_uint_nonnil. }
    split; [apply uint_digits|done].
Qed.

Lemma literal_digits_digits (s : str) (b : bool) :
  all is_digit s → s ≠ [] → literal_digits b s = Some s.
Proof.
  intros Hs. revert b. induction Hs as [|c s Hc Hs IH]; intros b Hne; [done|].
  simpl. rewrite Hc. destruct s as [|c' s]; [done|].
  by rewrite IH.
Qed.

Lemma digit_no_sign (c : ascii) :
  is_digit c = true → is_char "-" c = false ∧ is_char "+" c = false.
Proof. by_char c. Qed.

Lemma int_of_str_str_int (n : Z) : (0 ≤ n)%Z → int_of_str (str_int n) = Some n.
Proof.
  intros Hn. destruct (str_int_digits n Hn) as [Hd Hne].
  unfold int_of_str. destruct (str_int n) as [|c s] eqn:E; [done|].
  pose proof Hd as Hd'. apply Forall_cons in Hd' as [Hc _].
  destruct (digit_no_sign c Hc) as [-> ->].
  rewrite literal_digits_digits by done. rewrite <- E. cbn [mbind option_bind].
  unfold str_int. rewrite string_of_list_ascii_of_string.
  destruct n as [|p|p]; [done| |lia]. simpl.
  destruct (uint_nonnil_printed (Pos.to_uint p)) as [-> _].
  { apply DecimalPos.Unsigned.to_uint_nonnil. }
  rewrite NilEmpty.usu. simpl. unfold Z.of_uint.
  by rewrite DecimalPos.Unsigned.of_to.
Qed.

Lemma py_int_str_int (n : Z) : (0 ≤ n)%Z → py_int (str_int n) = Ok n.
Proof. intros Hn. unfold py_int. by rewrite int_of_str_str_int. Qed.

(** ** Printing and reading floats *)

Section Printing.
Context `{FM : FloatModel}.

(** The float prints as a non-empty text of the class [c], which reads
    back as the float. *)
Definition printed_as (c : ascii → bool) (x : float) : Prop :=
  float_of_str (str_of_float x) = Some x
  ∧ all c (str_of_float x) ∧ str_of_float x ≠ [].

Lemma py_float_printed (c : ascii → bool) (x : float) :
  printed_as c x → py_float (str_of_float x) = Ok x.
Proof. intros (H & _). unfold py_float. by rewrite H. Qed.

End Printing.

(** ** Texts and their lines *)

Lemma join_app (sep : str) (l1 l2 : list str) :
  l1 ≠ [] → l2 ≠ [] →
  join sep (l1 ++ l2) = join sep l1 ++ sep ++ join sep l2.
Proof.
  induction l1 as [|a l1 IH]; [done|]. intros _ H2.
  destruct l1 as [|b l1].
  - by destruct l2.
  - change (join sep ((a :: b :: l1) ++ l2))
      with (a ++ sep ++ join sep ((b :: l1) ++ l2)).
    rewrite IH by done.
    change (join sep (a :: b :: l1)) with (a ++ sep ++ join sep (b :: l1)).
    by rewrite <- !app_assoc.
Qed.

(** Joining lines that are themselves joined pieces. *)
Lemma join_flatten (sep : str) (pss : list (list str)) :
  Forall (λ ps, ps ≠ []) pss →
  join sep (map (join sep) pss) = join sep (concat pss).
Proof.
  induction 1 as [|ps pss Hps H IH]; [done|].
  destruct pss as [|ps' pss].
  - simpl. by rewrite app_nil_r.
  - change (concat (ps :: ps' :: pss)) with (ps ++ concat (ps' :: pss)).
    rewrite join_app; [|done|].
    + rewrite <- IH. done.
    + apply Forall_cons in H as [Hps' _]. simpl. by destruct ps'.
Qed.

(** A text without a newline. *)
Definition one_line (p : str) : Prop := all (λ a, negb (is_char newline a)) p.

Lemma one_line_class (c : ascii → bool) (p : str) :
  c newline = false → all c p → one_line p.
Proof.
  intros Hc. apply all_impl. intros a Ha. apply negb_true_iff.
  destruct (is_char newline a) eqn:E; [|done].
  apply is_char_eq in E as <-. congruence.
Qed.

Lemma readlines_line (p rest : str) :
  one_line p → readlines (p ++ newline :: rest) = (p ++ [newline]) :: readlines rest.
Proof.
  induction 1 as [|c p Hc Hp IH]; [done|].
  apply negb_true_iff in Hc. simpl. rewrite Hc.
  change (readlines (p ++ newline :: rest)) with (readlines (p ++ newline :: rest)).
  by rewrite IH.
Qed.

Lemma readlines_last (p : str) : one_line p → p ≠ [] → readlines p = [p].
Proof.
  induction 1 as [|c p Hc Hp IH]; [done|]. intros _.
  apply negb_true_iff in Hc. simpl. rewrite Hc.
  destruct p as [|c' p]; [done|]. by rewrite IH.
Qed.

(** The lines read are the pieces, each with or without its newline. *)
Definition lines_of (ls phys : list str) : Prop :=
  Forall2 (λ l p, ∃ e, eol e ∧ l = p ++ e) ls phys.

Lemma readlines_join (phys : list str) :
  Forall one_line phys →
  (∃ p, last phys = Some p ∧ p ≠ []) →
  lines_of (readlines (join [newline] phys)) phys.
Proof.
  induction 1 as [|p phys Hp Hphys IH]; intros (q & Hq & Hne); [done|].
  destruct phys as [|p' phys].
  - injection Hq as ->. simpl. rewrite readlines_last by done.
    constructor; [|constructor]. exists []. split; [by left|].
    by rewrite app_nil_r.
  - change (join [newline] (p :: p' :: phys))
      with (p ++ newline :: join [newline] (p' :: phys)).
    rewrite readlines_line by done. constructor.
    + exists [newline]. split; [by right|done].
    + apply IH. by exists q.
Qed.

(** [runs body phys s s']: the loop over the lines of the pieces [phys]
    takes the state [s] to [s']. *)
Definition runs {S : Type} (body : str → S → result S) (phys : list str)
    (s s' : S) : Prop :=
  ∀ ls, lines_of ls phys → for_each ls body s = Ok s'.

Lemma runs_nil {S : Type} (body : str → S → result S) (s : S) :
  runs body [] s s.
Proof. intros ls H. by apply Forall2_nil_inv_r in H as ->. Qed.

Lemma runs_cons {S : Type} (body : str → S → result S) (p : str)
    (phys : list str) (s s1 s2 : S) :
  (∀ e, eol e → body (p ++ e) s = Ok s1) →
  runs body phys s1 s2 →
  runs body (p :: phys) s s2.
Proof.
  intros Hp Hphys ls H.
  apply Forall2_cons_inv_r in H as (l & ls' & (e & He & ->) & H & ->).
  simpl. rewrite (Hp e He). simpl. by apply Hphys.
Qed.

Lemma runs_app {S : Type} (body : str → S → result S) (p1 p2 : list str)
    (s s1 s2 : S) :
  runs body p1 s s1 → runs body p2 s1 s2 → runs body (p1 ++ p2) s s2.
Proof.
  intros H1 H2 ls H.
  apply Forall2_app_inv_r in H as (l1 & l2 & Hl1 & Hl2 & ->).
  rewrite for_each_app, (H1 l1 Hl1). simpl. by apply H2.
Qed.

Lemma runs_skip {S : Type} (body : str → S → result S) (phys : list str)
    (s : S) :
  Forall (λ p, ∀ e, eol e → body (p ++ e) s = Ok s) phys →
  runs body phys s s.
Proof.
  induction 1 as [|p phys Hp Hphys IH]; [apply runs_nil|].
  by eapply runs_cons.
Qed.

(** ** The patterns on written rows *)

Lemma no_blank_classes (cs : list (ascii → bool)) :
  Forall (λ c, c = is_digit ∨ c = is_mass_char ∨ c = is_num_char ∨ c = is_alpha)
    cs →
  Forall (λ c : ascii → bool, ∀ a, c a = true → is_space a = false) cs
  ∧ Forall (λ c : ascii → bool, c newline = false) cs.
Proof.
  induction 1 as [|c cs Hc Hcs [IH1 IH2]]; [by split|].
  split; constructor; try done.
  - destruct Hc as [-> | [-> | [-> | ->]]];
      [apply digit_not_space|apply mass_char_not_space
      |apply num_char_not_space|apply alpha_not_space].
  - by destruct Hc as [-> | [-> | [-> | ->]]].
Qed.

Local Ltac known_classes :=
  first [apply (λ cs H, proj1 (no_blank_classes cs H))
        |apply (λ cs H, proj2 (no_blank_classes cs H))];
  repeat first [apply Forall_nil_2 | apply Forall_cons_2; [auto 6|]].

Lemma masses_hit (toks : list str) (e : str) :
  fields_of [is_digit; is_mass_char] toks → eol e →
  search masses_pattern (join (lit " ") toks ++ e) = Some toks.
Proof.
  intros Htoks He.
  apply (row_hit [is_digit; is_mass_char] [Eol]); try done;
    [known_classes..|by apply tail_eol_hit].
Qed.

Lemma general_coeff_hit (toks : list str) (e : str) :
  fields_of [is_digit; is_mass_char; is_mass_char] toks → eol e →
  search general_coeff_pattern (join (lit " ") toks ++ e) = Some toks.
Proof.
  intros Htoks He.
  apply (row_hit [is_digit; is_mass_char; is_mass_char] [Eol]); try done;
    [known_classes..|by apply tail_eol_hit].
Qed.

Lemma bond_data_hit (toks : list str) (e : str) :
  fields_of [is_digit; is_digit; is_digit; is_digit] toks → eol e →
  search bond_data_pattern (join (lit " ") toks ++ e) = Some toks.
Proof.
  intros Htoks He.
  apply (row_hit [is_digit; is_digit; is_digit; is_digit] [Star is_space; Eol]);
    try done; [known_classes..|by apply tail_blank_eol_hit].
Qed.

Lemma angle_data_hit (toks : list str) (e : str) :
  fields_of [is_digit; is_digit; is_digit; is_digit; is_digit] toks → eol e →
  search angle_data_pattern (join (lit " ") toks ++ e) = Some toks.
Proof.
  intros Htoks He.
  apply (row_hit [is_digit; is_digit; is_digit; is_digit; is_digit]
           [Star is_space; Eol]);
    try done; [known_classes..|by apply tail_blank_eol_hit].
Qed.

Lemma dihedral_data_hit (toks : list str) (e : str) :
  fields_of [is_digit; is_digit; is_digit; is_digit; is_digit; is_digit] toks →
  eol e →
  search dihedral_data_pattern (join (lit " ") toks ++ e) = Some toks.
Proof.
  intros Htoks He.
  apply (row_hit [is_digit; is_digit; is_digit; is_digit; is_digit; is_digit]
           [Star is_space; Eol]);
    try done; [known_classes..|by apply tail_blank_eol_hit].
Qed.

Lemma tail_word_hit (e : str) : eol e → rmatch [Star is_word] e = Some [].
Proof. by intros [-> | ->]. Qed.

Lemma atoms_hit (toks : list str) (e : str) :
  fields_of [is_digit; is_digit; is_digit; is_num_char; is_num_char;
             is_num_char; is_num_char] toks →
  eol e →
  search atoms_pattern (join (lit " ") toks ++ e) = Some toks.
Proof.
  intros Htoks He.
  apply (row_hit [is_digit; is_digit; is_digit; is_num_char; is_num_char;
                  is_num_char; is_num_char] [Star is_word]);
    try done; [known_classes..|by apply tail_word_hit].
Qed.

Lemma atoms_atomic_hit (toks : list str) (e : str) :
  fields_of [is_digit; is_digit; is_digit; is_num_char; is_num_char;
             is_num_char] toks →
  eol e →
  search atoms_pattern_atomic (join (lit " ") toks ++ e) = Some toks.
Proof.
  intros Htoks He.
  apply (row_hit [is_digit; is_digit; is_digit; is_num_char; is_num_char;
                  is_num_char] [Star is_word]);
    try done; [known_classes..|by apply tail_word_hit].
Qed.

Lemma first_token_stops (t : str) (toks : list str) (rest : str) :
  token t → stops is_space (join (lit " ") (t :: toks) ++ rest).
Proof.
  intros Ht. destruct toks as [|t' toks].
  - simpl. by apply token_stops_blank.
  - change (join (lit " ") (t :: t' :: toks))
      with (t ++ lit " " ++ join (lit " ") (t' :: toks)).
    rewrite <- app_assoc. by apply token_stops_blank.
Qed.

Lemma types_hit (n family e : str) :
  fields_of [is_digit; is_alpha] [n; family] → eol e →
  search types_pattern (join (lit " ") [n; family; lit "types"] ++ e)
  = Some [n; family].
Proof.
  intros Htoks He. unfold search.
  change types_pattern
    with (Star is_space
          :: fields [is_digit; is_alpha]
               (Plus is_space :: chars "types" ++ [Eol])).
  replace (join (lit " ") [n; family; lit "types"] ++ e)
    with (join (lit " ") [n; family] ++ (lit " types" ++ e))
    by (cbn [join]; by rewrite <- !app_assoc).
  assert (Hcs : Forall (λ c : ascii → bool,
                          ∀ a, c a = true → is_space a = false)
                  [is_digit; is_alpha]) by known_classes.
  pose proof (fields_tokens _ _ Hcs Htoks) as Htk.
  apply Forall_cons in Htk as [Hn _].
  apply rmatch_star_skip; [by apply first_token_stops|].
  rewrite <- (app_nil_r [n; family]) at 2.
  apply fields_hit; try done.
  - by intros c [= <-].
  - by destruct He as [-> | ->].
Qed.

(** The end of a box line: [" xlo xhi"], [" ylo yhi"] or [" zlo zhi"]. *)
Definition box_end (sfx : str) : Prop :=
  sfx = lit " xlo xhi" ∨ sfx = lit " ylo yhi" ∨ sfx = lit " zlo zhi".

Lemma box_tail_hit (sfx e : str) :
  box_end sfx → eol e → rmatch (Plus is_space :: lo_hi) (sfx ++ e) = Some [].
Proof. by intros [-> | [-> | ->]] [-> | ->]. Qed.

Lemma box_basic_hit (a b sfx e : str) :
  fields_of [is_num_char; is_num_char] [a; b] → box_end sfx → eol e →
  search box_pattern_basic (join (lit " ") [a; b] ++ sfx ++ e) = Some [a; b].
Proof.
  intros Htoks Hsfx He. unfold search.
  change box_pattern_basic
    with (fields [is_num_char; is_num_char] (Plus is_space :: lo_hi)).
  rewrite <- (app_nil_r [a; b]) at 2.
  assert (Hcs : Forall (λ c : ascii → bool,
                          ∀ a, c a = true → is_space a = false)
                  [is_num_char; is_num_char]) by known_classes.
  apply fields_hit; try done; [|by apply box_tail_hit].
  intros c [= <-]. by destruct Hsfx as [-> | [-> | ->]].
Qed.

Lemma box_hit (a b sfx e : str) :
  fields_of [is_num_char; is_num_char] [a; b] → box_end sfx → eol e →
  search box_pattern (join (lit " ") [a; b] ++ sfx ++ e) = Some [a; b].
Proof.
  intros Htoks Hsfx He. unfold search.
  change box_pattern with (Star is_space :: box_pattern_basic).
  assert (Hcs : Forall (λ c : ascii → bool,
                          ∀ a, c a = true → is_space a = false)
                  [is_num_char; is_num_char]) by known_classes.
  pose proof (fields_tokens _ _ Hcs Htoks) as Htk.
  apply Forall_cons in Htk as [Ha _].
  apply rmatch_star_skip; [by apply first_token_stops|].
  by apply box_basic_hit.
Qed.

(** *** Lines the patterns do not match *)

Lemma masses_miss (line : str) :
  ¬ fields_of [is_digit; is_mass_char] (split line) →
  search masses_pattern line = None.
Proof.
  intros H. destruct (search masses_pattern line) as [m|] eqn:E; [|done].
  apply masses_inv in E as [<- E]. done.
Qed.

Lemma general_coeff_miss (line : str) :
  ¬ fields_of [is_digit; is_mass_char; is_mass_char] (split line) →
  search general_coeff_pattern line = None.
Proof.
  intros H. destruct (search general_coeff_pattern line) as [m|] eqn:E; [|done].
  apply general_coeff_inv in E as [<- E]. done.
Qed.

Lemma bond_data_miss (line : str) :
  ¬ fields_of [is_digit; is_digit; is_digit; is_digit] (split line) →
  search bond_data_pattern line = None.
Proof.
  intros H. destruct (search bond_data_pattern line) as [m|] eqn:E; [|done].
  apply bond_data_inv in E as [<- E]. done.
Qed.

Lemma angle_data_miss (line : str) :
  ¬ fields_of [is_digit; is_digit; is_digit; is_digit; is_digit] (split line) →
  search angle_data_pattern line = None.
Proof.
  intros H. destruct (search angle_data_pattern line) as [m|] eqn:E; [|done].
  apply angle_data_inv in E as [<- E]. done.
Qed.

Lemma dihedral_data_miss (line : str) :
  ¬ fields_of [is_digit; is_digit; is_digit; is_digit; is_digit; is_digit]
      (split line) →
  search dihedral_data_pattern line = None.
Proof.
  intros H. destruct (search dihedral_data_pattern line) as [m|] eqn:E; [|done].
  apply dihedral_data_inv in E as [<- E]. done.
Qed.

Lemma types_miss (line : str) :
  (∀ n family, split line ≠ [n; family; lit "types"]) →
  search types_pattern line = None.
Proof.
  intros H. destruct (search types_pattern line) as [m|] eqn:E; [|done].
  apply types_inv in E as (n & family & _ & E & _). by destruct (H n family).
Qed.

Lemma box_miss (line : str) :
  (∀ g1 g2 x t ts, split line = g1 :: g2 :: (x :: t) :: ts → is_xyz x = false) →
  search box_pattern line = None ∧ search box_pattern_basic line = None.
Proof.
  intros H. split.
  - destruct (search box_pattern line) as [m|] eqn:E; [|done].
    apply box_inv in E as (g1 & g2 & x & t & ts & _ & E & Hx & _).
    apply H in E. congruence.
  - destruct (search box_pattern_basic line) as [m|] eqn:E; [|done].
    apply box_basic_inv in E as (g1 & g2 & x & t & ts & _ & E & Hx & _).
    apply H in E. congruence.
Qed.

Lemma atom_tokens_length (cs : list (ascii → bool)) (line : str) (m : list str) :
  atom_tokens cs line m → length cs ≤ length (split line).
Proof.
  intros (front & g & t & ts & -> & -> & H). apply Forall2_length in H.
  rewrite H, !length_app. simpl. lia.
Qed.

Lemma atom_tokens_second (cs : list (ascii → bool)) (c1 c2 c3 : ascii → bool)
    (line : str) (m : list str) (t1 t2 : str) (ts : list str) :
  atom_tokens (c1 :: c2 :: c3 :: cs) line m →
  split line = t1 :: t2 :: ts → all c2 t2.
Proof.
  intros (front & g & t & ts' & -> & -> & H) Hsplit.
  destruct front as [|f1 [|f2 front]].
  - apply Forall2_length in H. done.
  - apply Forall2_length in H. done.
  - injection Hsplit as -> -> _.
    apply Forall2_cons in H as [_ H]. by apply Forall2_cons in H as [[H _] _].
Qed.

Lemma atoms_miss_short (line : str) :
  length (split line) < 6 →
  search atoms_pattern line = None ∧ search atoms_pattern_atomic line = None.
Proof.
  intros H. split.
  - destruct (search atoms_pattern line) as [m|] eqn:E; [|done].
    apply atoms_inv, atom_tokens_length in E. simpl in E. lia.
  - destruct (search atoms_pattern_atomic line) as [m|] eqn:E; [|done].
    apply atoms_atomic_inv, atom_tokens_length in E. simpl in E. lia.
Qed.

Lemma atoms_miss_second (line : str) (t1 t2 : str) (ts : list str) :
  split line = t1 :: t2 :: ts → ¬ all is_digit t2 →
  search atoms_pattern line = None ∧ search atoms_pattern_atomic line = None.
Proof.
  intros Hs H. split.
  - destruct (search atoms_pattern line) as [m|] eqn:E; [|done].
    apply atoms_inv in E. by apply (atom_tokens_second _ _ _ _ _ _ _ _ _ E) in Hs.
  - destruct (search atoms_pattern_atomic line) as [m|] eqn:E; [|done].
    apply atoms_atomic_inv in E.
    by apply (atom_tokens_second _ _ _ _ _ _ _ _ _ E) in Hs.
Qed.


(** ** What the writers write, line by line *)

Lemma ends_full_app (l1 l2 : list str) :
  (∃ p, last l1 = Some p ∧ p ≠ []) →
  l2 = [] ∨ (∃ p, last l2 = Some p ∧ p ≠ []) →
  ∃ p, last (l1 ++ l2) = Some p ∧ p ≠ [].
Proof.
  intros H1 [->|(p & Hp & Hne)]; [by rewrite app_nil_r|].
  exists p. split; [|done]. destruct l2 as [|a l2]; [done|].
  by rewrite last_app_cons.
Qed.

Lemma digit_not_xyz (a : ascii) : is_digit a = true → is_xyz a = false.
Proof. by_char a. Qed.
Lemma digit_not_newline (a : ascii) :
  is_digit a = true → negb (is_char newline a) = true.
Proof. by_char a. Qed.
Lemma repr_char_not_newline (a : ascii) :
  is_repr_char a = true → negb (is_char newline a) = true.
Proof. by_char a. Qed.
Lemma repr_char_not_xyz (a : ascii) : is_repr_char a = true → is_xyz a = false.
Proof. by_char a. Qed.
Lemma mass_char_repr_char (a : ascii) :
  is_mass_char a = true → is_repr_char a = true.
Proof. by_char a. Qed.
Lemma digit_repr_char (a : ascii) : is_digit a = true → is_repr_char a = true.
Proof. by_char a. Qed.

Section Written.
Context `{FM : FloatModel}.

(** The text of a row: its cells, joined by single spaces. *)
Definition row_text (row : list value) : str :=
  join (lit " ") (map str_value row).

(** The pieces of a block: the name between two empty lines, then the
    rows; nothing for an empty table. *)
Definition block (name : string) (rows : list (list value)) : list str :=
  match rows with
  | [] => []
  | _ :: _ => [[]; lit name ++ lit " "; []] ++ map row_text rows
  end.

Lemma set_lines_from_list_pieces (pss : list (list str)) (name : string)
    (rows : list (list value)) :
  ∃ qss,
    LD.set_lines_from_list (map (join [newline]) pss) name rows
    = map (join [newline]) (pss ++ qss)
    ∧ Forall (λ ps, ps ≠ []) qss
    ∧ concat qss = block name rows.
Proof.
  unfold LD.set_lines_from_list, block. destruct rows as [|row rows].
  - exists []. by rewrite app_nil_r.
  - exists ([[]; lit name ++ lit " "; []] :: map (λ r, [row_text r]) (row :: rows)).
    split; [|split].
    + rewrite map_app. rewrite <- app_assoc. f_equal.
      change (map (join [newline])
                ([[]; lit name ++ lit " "; []]
                 :: map (λ r, [row_text r]) (row :: rows)))
        with (([] ++ [newline] ++ (lit name ++ lit " ") ++ [newline] ++ [])
              :: map (join [newline]) (map (λ r, [row_text r]) (row :: rows))).
      rewrite map_map. simpl. by rewrite <- app_assoc.
    + constructor; [done|]. apply Forall_forall. intros ps Hps.
      apply list_elem_of_fmap in Hps as (r & -> & _). done.
    + change (concat ([[]; lit name ++ lit " "; []]
                      :: map (λ r, [row_text r]) (row :: rows)))
        with ([[]; lit name ++ lit " "; []]
              ++ concat (map (λ r, [row_text r]) (row :: rows))).
      f_equal. generalize (row :: rows). intros l.
      induction l as [|a l IH]; [done|]. simpl. by rewrite <- IH.
Qed.

(** The three lines of the box. *)
Definition box_lines (box : list (list value)) : list str :=
  match box with
  | [r0; r1; r2] =>
      [row_text r0 ++ lit " xlo xhi"; row_text r1 ++ lit " ylo yhi";
       row_text r2 ++ lit " zlo zhi"]
  | _ => []
  end.

Lemma box_text_lines (a0 a1 b0 b1 c0 c1 : value) :
  LD.box_text [[a0; a1]; [b0; b1]; [c0; c1]]
  = Ok (join [newline] (box_lines [[a0; a1]; [b0; b1]; [c0; c1]])).
Proof.
  unfold LD.box_text, box_lines, row_text. simpl. f_equal.
  by rewrite <- !app_assoc.
Qed.

(** The lines of the text of a record of the base class. *)
Definition base_lines (r : LD.t) : list str :=
  [lit "Data file generated by pymatgen"; [];
   str_nat (LD.natoms r) ++ lit " atoms"; [];
   str_nat (LD.natom_types r) ++ lit " atom types"; []]
  ++ box_lines (LD.box_size r)
  ++ block "Masses" (LD.atomic_masses r)
  ++ block "Atoms" (LD.atoms_data r).

Lemma base_written (r : LD.t) (a0 a1 b0 b1 c0 c1 : value) :
  LD.box_size r = [[a0; a1]; [b0; b1]; [c0; c1]] →
  LD.__str__ r = Ok (join [newline] (base_lines r)).
Proof.
  intros Hbox. unfold LD.__str__, base_lines. rewrite Hbox, box_text_lines.
  simpl mbind. cbv zeta.
  set (pss := [[lit "Data file generated by pymatgen"; []];
               [str_nat (LD.natoms r) ++ lit " atoms"; []];
               [str_nat (LD.natom_types r) ++ lit " atom types"; []];
               box_lines [[a0; a1]; [b0; b1]; [c0; c1]]]).
  match goal with
  | |- context [LD.set_lines_from_list (LD.set_lines_from_list ?l _ _) _ _] =>
      replace l with (map (join [newline]) pss)
        by (subst pss; cbn [map app join box_lines]; by rewrite <- !app_assoc)
  end.
  destruct (set_lines_from_list_pieces pss "Masses" (LD.atomic_masses r))
    as (q1 & -> & Hq1 & Hc1).
  destruct (set_lines_from_list_pieces (pss ++ q1) "Atoms" (LD.atoms_data r))
    as (q2 & -> & Hq2 & Hc2).
  f_equal. rewrite join_flatten.
  - rewrite !concat_app, Hc1, Hc2. by rewrite <- !app_assoc.
  - rewrite !Forall_app. split; [split|]; [|done..]. by repeat constructor.
Qed.

End Written.

(** ** Lines of tokens *)

Lemma token_one_line (t : str) : token t → one_line t.
Proof.
  intros [_ Ht]. eapply all_impl; [|exact Ht]. intros a Ha. cbv beta in *.
  apply negb_true_iff in Ha. apply negb_true_iff.
  destruct (is_char newline a) eqn:E; [|done].
  apply is_char_eq in E as <-. by vm_compute in Ha.
Qed.

Lemma one_line_app (p q : str) : one_line p → one_line q → one_line (p ++ q).
Proof. intros Hp Hq. apply all_app. by split. Qed.

Lemma one_line_join (toks : list str) :
  Forall token toks → one_line (join (lit " ") toks).
Proof.
  induction 1 as [|t toks Ht Htoks IH]; [constructor|].
  destruct toks as [|t' toks]; [by apply token_one_line|].
  change (join (lit " ") (t :: t' :: toks))
    with (t ++ lit " " ++ join (lit " ") (t' :: toks)).
  apply one_line_app; [by apply token_one_line|].
  apply one_line_app; [by repeat constructor|done].
Qed.

Lemma join_nonempty (toks : list str) :
  Forall token toks → toks ≠ [] → join (lit " ") toks ≠ [].
Proof.
  intros H Hne. destruct H as [|t toks [Ht _] H]; [done|].
  destruct toks; simpl; by destruct t.
Qed.

Lemma row_line_split (toks : list str) (e : str) :
  Forall token toks → eol e → split (join (lit " ") toks ++ e) = toks.
Proof. intros Htoks He. apply split_join; [done|by apply eol_blank]. Qed.

Lemma token_int (i : Z) : (0 ≤ i)%Z → token (str_int i).
Proof.
  intros Hi. destruct (str_int_digits i Hi) as [Hd Hne].
  by apply (token_of_class is_digit); [apply digit_not_space|..].
Qed.

Lemma token_word (w : string) :
  forallb (λ a, negb (is_space a)) (lit w) = true → lit w ≠ [] → token (lit w).
Proof. intros H Hne. split; [done|]. by apply all_forallb. Qed.

Section BaseRoundTrip.
Context `{FM : FloatModel}.

Lemma token_float (c : ascii → bool) (x : float) :
  (∀ a, c a = true → is_space a = false) → printed_as c x →
  token (str_of_float x).
Proof. intros Hc (_ & Hx & Hne). by apply (token_of_class c). Qed.

(** *** Records that are read back *)

Definition box_row_ok (row : list value) : Prop :=
  ∃ a b, row = [VFloat a; VFloat b]
         ∧ printed_as is_num_char a ∧ printed_as is_num_char b.

Definition mass_row_ok (row : list value) : Prop :=
  ∃ i m, row = [VInt i; VFloat m] ∧ (0 ≤ i)%Z ∧ printed_as is_mass_char m.

(** An atom record: three ids, then the charge (in charge style only)
    and the coordinates. *)
Definition atom_row_ok (read_charge : bool) (row : list value) : Prop :=
  ∃ i j k fs,
    row = VInt i :: VInt j :: VInt k :: map VFloat fs
    ∧ (0 ≤ i)%Z ∧ (0 ≤ j)%Z ∧ (0 ≤ k)%Z
    ∧ length fs = (if read_charge then 4 else 3)
    ∧ Forall (printed_as is_num_char) fs.

(** *** The loop body on the lines of a text *)

Definition base_state : Type :=
  list (list value) * list (list value) * list (list value).

Lemma base_skip (read_charge : bool) (line : str) (st : base_state) :
  search masses_pattern line = None →
  search box_pattern_basic line = None →
  search atoms_pattern line = None →
  search atoms_pattern_atomic line = None →
  LD.from_file_line read_charge line st = Ok st.
Proof.
  intros H1 H2 H3 H4. unfold LD.from_file_line.
  destruct st as [[masses box] atoms]. rewrite H1, H2.
  destruct read_charge; [by rewrite H3|by rewrite H4].
Qed.

Lemma base_literal_line (read_charge : bool) (p e : str) (st : base_state) :
  p ∈ [lit "Data file generated by pymatgen"; []; lit "Masses "; lit "Atoms "] →
  eol e →
  LD.from_file_line read_charge (p ++ e) st = Ok st.
Proof.
  intros Hp He. apply base_skip;
    repeat (apply elem_of_cons in Hp as [->|Hp]);
    try (by apply elem_of_nil in Hp);
    destruct He as [-> | ->]; vm_compute; reflexivity.
Qed.

Lemma base_count_line (read_charge : bool) (n : nat) (w : list str) (e : str)
    (st : base_state) :
  w = [lit "atoms"] ∨ w = [lit "atom"; lit "types"] →
  eol e →
  LD.from_file_line read_charge (join (lit " ") (str_nat n :: w) ++ e) st
  = Ok st.
Proof.
  intros Hw He.
  assert (Htoks : Forall token (str_nat n :: w)).
  { constructor; [apply token_int; lia|].
    destruct Hw as [-> | ->];
      repeat first [apply Forall_nil_2 | apply Forall_cons_2];
      by apply token_word. }
  pose proof (row_line_split _ e Htoks He) as Hsplit.
  apply base_skip.
  - apply masses_miss. rewrite Hsplit. intros H.
    destruct Hw as [-> | ->].
    + apply Forall2_cons in H as [_ H]. apply Forall2_cons in H as [[H _] _].
      apply all_forallb in H. by vm_compute in H.
    + by apply Forall2_length in H.
  - apply box_miss. rewrite Hsplit. intros g1 g2 x t ts Hs.
    destruct Hw as [-> | ->]; [done|]. injection Hs as _ _ Hx _ _.
    by rewrite <- Hx.
  - refine (proj1 (atoms_miss_short _ _)). rewrite Hsplit.
    destruct Hw as [-> | ->]; simpl; lia.
  - refine (proj2 (atoms_miss_short _ _)). rewrite Hsplit.
    destruct Hw as [-> | ->]; simpl; lia.
Qed.

Lemma base_box_line (read_charge : bool) (row : list value) (sfx e : str)
    (masses box atoms : list (list value)) :
  box_row_ok row → box_end sfx → eol e →
  LD.from_file_line read_charge ((row_text row ++ sfx) ++ e) (masses, box, atoms)
  = Ok (masses, box ++ [row], atoms).
Proof.
  intros (a & b & -> & Ha & Hb) Hsfx He. unfold row_text. simpl map.
  assert (Hf : fields_of [is_num_char; is_num_char]
                 [str_of_float a; str_of_float b]).
  { destruct Ha as (_ & Ha & Hane), Hb as (_ & Hb & Hbne).
    by repeat constructor. }
  assert (Hsplit : ∃ t3 t4,
    split ((join (lit " ") [str_of_float a; str_of_float b] ++ sfx) ++ e)
    = [str_of_float a; str_of_float b; t3; t4]
    ∧ ¬ all is_digit t3).
  { assert (Hw : ∃ t3 t4, sfx = lit " " ++ t3 ++ lit " " ++ t4
                          ∧ token t3 ∧ token t4 ∧ ¬ all is_digit t3).
    { destruct Hsfx as [-> | [-> | ->]];
        [exists (lit "xlo"), (lit "xhi")|exists (lit "ylo"), (lit "yhi")
        |exists (lit "zlo"), (lit "zhi")];
        (split; [done|]); (split; [by apply token_word|]);
        (split; [by apply token_word|]);
        intros H; apply all_forallb in H; by vm_compute in H. }
    destruct Hw as (t3 & t4 & -> & Ht3 & Ht4 & Hnd). exists t3, t4.
    split; [|done].
    rewrite <- (row_line_split [str_of_float a; str_of_float b; t3; t4] e); [|
      |done].
    - f_equal. cbn [join]. by rewrite <- !app_assoc.
    - repeat first [apply Forall_nil_2 | apply Forall_cons_2]; try done;
        by apply (token_float is_num_char); [apply num_char_not_space|]. }
  destruct Hsplit as (t3 & t4 & Hsplit & Hnd).
  assert (Hbox : search box_pattern_basic
                   ((join (lit " ") [str_of_float a; str_of_float b] ++ sfx) ++ e)
                 = Some [str_of_float a; str_of_float b]).
  { rewrite <- app_assoc. by apply box_basic_hit. }
  remember ((join (lit " ") [str_of_float a; str_of_float b] ++ sfx) ++ e)
    as line eqn:Hline.
  assert (Hm : search masses_pattern line = None).
  { apply masses_miss. rewrite Hsplit. intros H. by apply Forall2_length in H. }
  assert (Hat : search atoms_pattern line = None
                ∧ search atoms_pattern_atomic line = None).
  { apply atoms_miss_short. rewrite Hsplit. simpl. lia. }
  destruct Hat as [Hat1 Hat2].
  unfold LD.from_file_line. rewrite Hm, Hbox.
  unfold LD.box_row, group. simpl.
  rewrite (py_float_printed _ _ Ha), (py_float_printed _ _ Hb). simpl.
  destruct read_charge; [by rewrite Hat1|by rewrite Hat2].
Qed.

Lemma base_mass_line (read_charge : bool) (row : list value) (e : str)
    (masses box atoms : list (list value)) :
  mass_row_ok row → eol e →
  LD.from_file_line read_charge (row_text row ++ e) (masses, box, atoms)
  = Ok (masses ++ [row], box, atoms).
Proof.
  intros (i & m & -> & Hi & Hm) He. unfold row_text. simpl map.
  destruct (str_int_digits i Hi) as [Hd Hne].
  assert (Hf : fields_of [is_digit; is_mass_char] [str_int i; str_of_float m]).
  { destruct Hm as (_ & Hm & Hmne). by repeat constructor. }
  assert (Htoks : Forall token [str_int i; str_of_float m]).
  { repeat first [apply Forall_nil_2 | apply Forall_cons_2];
      [by apply token_int
      |by apply (token_float is_mass_char); [apply mass_char_not_space|]]. }
  pose proof (row_line_split _ e Htoks He) as Hsplit.
  pose proof (masses_hit _ e Hf He) as Hmass.
  remember (join (lit " ") [str_int i; str_of_float m] ++ e) as line eqn:Hline.
  assert (Hbox : search box_pattern_basic line = None).
  { apply box_miss. rewrite Hsplit. by intros g1 g2 x t ts [=]. }
  assert (Hat : search atoms_pattern line = None
                ∧ search atoms_pattern_atomic line = None).
  { apply atoms_miss_short. rewrite Hsplit. simpl. lia. }
  destruct Hat as [Hat1 Hat2].
  unfold LD.from_file_line. rewrite Hmass, Hbox.
  unfold LD.mass_row, group. simpl.
  rewrite (py_int_str_int i Hi). simpl.
  rewrite (py_float_printed _ _ Hm). simpl.
  destruct read_charge; [by rewrite Hat1|by rewrite Hat2].
Qed.

Lemma mapM_printed {A B : Type} (f : A → result B) (g : B → A) (l : list B) :
  Forall (λ y, f (g y) = Ok y) l → mapM f (map g l) = Ok l.
Proof.
  induction 1 as [|y l Hy Hl IH]; [done|]. cbn. rewrite Hy. cbn.
  change (mapM f (map g l)) with (mapM f (map g l)) in IH.
  by rewrite IH.
Qed.

(** The atoms pattern on the text of an atom record. *)
Lemma atom_row_matched (read_charge : bool) (i j k : Z) (fs : list float)
    (e : str) :
  (0 ≤ i)%Z → (0 ≤ j)%Z → (0 ≤ k)%Z →
  length fs = (if read_charge then 4 else 3) →
  Forall (printed_as is_num_char) fs → eol e →
  let toks := str_int i :: str_int j :: str_int k :: map str_of_float fs in
  search (if read_charge then atoms_pattern else atoms_pattern_atomic)
    (join (lit " ") toks ++ e) = Some toks.
Proof.
  intros Hi Hj Hk Hlen Hfs He toks. subst toks.
  destruct (str_int_digits i Hi) as [Hdi Hnei].
  destruct (str_int_digits j Hj) as [Hdj Hnej].
  destruct (str_int_digits k Hk) as [Hdk Hnek].
  assert (Hf : ∀ x, x ∈ fs → all is_num_char (str_of_float x)
                              ∧ str_of_float x ≠ []).
  { intros x Hx. rewrite Forall_forall in Hfs. by destruct (Hfs x Hx) as (_ & ? & ?). }
  assert (Hd : ∀ n, (0 ≤ n)%Z → all is_digit (str_int n) ∧ str_int n ≠ [])
    by apply str_int_digits.
  destruct read_charge.
  - destruct fs as [|f1 [|f2 [|f3 [|f4 [|f5 fs]]]]]; try done.
    apply atoms_hit; [|done].
    repeat first [apply Forall2_nil_2 | apply Forall2_cons_2];
      first [by apply Hd | apply Hf; set_solver].
  - destruct fs as [|f1 [|f2 [|f3 [|f4 fs]]]]; try done.
    apply atoms_atomic_hit; [|done].
    repeat first [apply Forall2_nil_2 | apply Forall2_cons_2];
      first [by apply Hd | apply Hf; set_solver].
Qed.

Lemma base_atom_line (read_charge : bool) (row : list value) (e : str)
    (masses box atoms : list (list value)) :
  atom_row_ok read_charge row → eol e →
  LD.from_file_line read_charge (row_text row ++ e) (masses, box, atoms)
  = Ok (masses, box, atoms ++ [row]).
Proof.
  intros (i & j & k & fs & -> & Hi & Hj & Hk & Hlen & Hfs) He.
  unfold row_text. cbn [map]. rewrite map_map. cbn [str_value].
  assert (Hft : Forall token (map str_of_float fs)).
  { apply Forall_fmap. eapply Forall_impl; [exact Hfs|]. intros x Hx.
    by apply (token_float is_num_char); [apply num_char_not_space|]. }
  assert (Htoks : Forall token
                    (str_int i :: str_int j :: str_int k :: map str_of_float fs)).
  { repeat apply Forall_cons_2; try (by apply token_int). done. }
  pose proof (row_line_split _ e Htoks He) as Hsplit.
  pose proof (atom_row_matched read_charge i j k fs e Hi Hj Hk Hlen Hfs He)
    as Hatoms. cbv zeta in Hatoms.
  assert (Hfloats : mapM py_float (map str_of_float fs) = Ok fs).
  { apply mapM_printed. eapply Forall_impl; [exact Hfs|]. intros x Hx.
    by eapply py_float_printed. }
  remember (join (lit " ")
              (str_int i :: str_int j :: str_int k :: map str_of_float fs) ++ e)
    as line eqn:Hline.
  assert (Hmass : search masses_pattern line = None).
  { apply masses_miss. rewrite Hsplit. intros H. apply Forall2_length in H.
    simpl in H. lia. }
  assert (Hbox : search box_pattern_basic line = None).
  { apply box_miss. rewrite Hsplit. intros g1 g2 x t ts [= _ _ Hx _].
    destruct (str_int_digits k Hk) as [Hdk _]. rewrite Hx in Hdk.
    apply Forall_cons in Hdk as [Hdk _]. by apply digit_not_xyz. }
  unfold LD.from_file_line. rewrite Hmass, Hbox. cbv zeta. rewrite Hatoms.
  unfold LD.atom_row. cbn [take drop].
  cbn. rewrite (py_int_str_int i Hi). cbn. rewrite (py_int_str_int j Hj). cbn.
  rewrite (py_int_str_int k Hk). cbn. rewrite take_0, drop_0. cbn.
  by rewrite Hfloats.
Qed.

(** *** The loop over the lines of the text *)

Lemma base_runs_masses (read_charge : bool) (rows : list (list value)) :
  Forall mass_row_ok rows →
  ∀ masses box atoms,
    runs (LD.from_file_line read_charge) (map row_text rows)
      (masses, box, atoms) (masses ++ rows, box, atoms).
Proof.
  induction 1 as [|row rows Hrow Hrows IH]; intros masses box atoms.
  - rewrite app_nil_r. apply runs_nil.
  - simpl. eapply runs_cons.
    + intros e He. by apply base_mass_line.
    + rewrite (cons_middle row masses rows), app_assoc. apply IH.
Qed.

Lemma base_runs_atoms (read_charge : bool) (rows : list (list value)) :
  Forall (atom_row_ok read_charge) rows →
  ∀ masses box atoms,
    runs (LD.from_file_line read_charge) (map row_text rows)
      (masses, box, atoms) (masses, box, atoms ++ rows).
Proof.
  induction 1 as [|row rows Hrow Hrows IH]; intros masses box atoms.
  - rewrite app_nil_r. apply runs_nil.
  - simpl. eapply runs_cons.
    + intros e He. by apply base_atom_line.
    + rewrite (cons_middle row atoms rows), app_assoc. apply IH.
Qed.

Lemma base_runs_block (read_charge : bool) (name : string)
    (rows : list (list value)) (s s' : base_state) :
  name = "Masses"%string ∨ name = "Atoms"%string →
  runs (LD.from_file_line read_charge) (map row_text rows) s s' →
  (rows = [] → s' = s) →
  runs (LD.from_file_line read_charge) (block name rows) s s'.
Proof.
  intros Hname Hrows Hnil. unfold block. destruct rows as [|row rows].
  - rewrite Hnil by done. apply runs_nil.
  - eapply runs_app; [|exact Hrows]. apply runs_skip.
    repeat first [apply Forall_nil_2 | apply Forall_cons_2]; intros e He;
      apply base_literal_line; try done;
      destruct Hname as [-> | ->]; set_solver.
Qed.

(** A record of the base class that [from_file] reads back: its counts
    are those of its tables, its box has three rows of two floats, a mass
    is an id and a float printed in digits and dots, an atom is three ids
    and four floats (three in atomic style); the ids are not negative and
    the floats print as they are read. *)
Definition well_formed_base (read_charge : bool) (r : LD.t) : Prop :=
  consistent_base r
  ∧ length (LD.box_size r) = 3
  ∧ Forall box_row_ok (LD.box_size r)
  ∧ Forall mass_row_ok (LD.atomic_masses r)
  ∧ Forall (atom_row_ok read_charge) (LD.atoms_data r).

Lemma row_text_full (toks_ok : list value → Prop) (rows : list (list value)) :
  (∀ row, toks_ok row → one_line (row_text row) ∧ row_text row ≠ []) →
  Forall toks_ok rows →
  Forall one_line (map row_text rows)
  ∧ (rows = [] ∨ ∃ p, last (map row_text rows) = Some p ∧ p ≠ []).
Proof.
  intros Hok Hrows. split.
  - apply Forall_fmap. eapply Forall_impl; [exact Hrows|].
    intros row Hrow. by apply Hok.
  - destruct rows as [|row rows _] using rev_ind; [by left|]. right.
    apply Forall_app in Hrows as [_ Hrow]. apply Forall_cons in Hrow as [Hrow _].
    exists (row_text row). rewrite map_app. simpl. rewrite last_snoc.
    split; [done|]. by apply Hok.
Qed.

Lemma block_full (name : string) (toks_ok : list value → Prop)
    (rows : list (list value)) :
  one_line (lit name) →
  (∀ row, toks_ok row → one_line (row_text row) ∧ row_text row ≠ []) →
  Forall toks_ok rows →
  Forall one_line (block name rows)
  ∧ (block name rows = [] ∨ ∃ p, last (block name rows) = Some p ∧ p ≠ []).
Proof.
  intros Hname Hok Hrows.
  destruct (row_text_full toks_ok rows Hok Hrows) as [H1 H2].
  unfold block. destruct rows as [|row rows]; [by split; [constructor|left]|].
  split.
  - apply Forall_cons_2; [constructor|].
    apply Forall_cons_2; [apply one_line_app; [done|by repeat constructor]|].
    apply Forall_cons_2; [constructor|done].
  - right. destruct H2 as [|(p & Hp & Hne)]; [done|]. exists p.
    split; [|done]. simpl in Hp |- *. by destruct (map row_text rows).
Qed.

Lemma row_text_tokens (row : list value) :
  row ≠ [] → Forall (λ v, token (str_value v)) row →
  one_line (row_text row) ∧ row_text row ≠ [].
Proof.
  intros Hne Hrow. unfold row_text.
  assert (Htoks : Forall token (map str_value row)) by by apply Forall_fmap.
  split; [by apply one_line_join|]. apply join_nonempty; [done|].
  by destruct row.
Qed.

Lemma mass_row_tokens (row : list value) :
  mass_row_ok row → row ≠ [] ∧ Forall (λ v, token (str_value v)) row.
Proof.
  intros (i & m & -> & Hi & Hm). split; [done|].
  repeat first [apply Forall_nil_2 | apply Forall_cons_2];
    [by apply token_int
    |by apply (token_float is_mass_char); [apply mass_char_not_space|]].
Qed.

Lemma atom_row_tokens (read_charge : bool) (row : list value) :
  atom_row_ok read_charge row →
  row ≠ [] ∧ Forall (λ v, token (str_value v)) row.
Proof.
  intros (i & j & k & fs & -> & Hi & Hj & Hk & _ & Hfs). split; [done|].
  repeat apply Forall_cons_2; try (by apply token_int).
  apply Forall_fmap. eapply Forall_impl; [exact Hfs|]. intros x Hx.
  by apply (token_float is_num_char); [apply num_char_not_space|].
Qed.

Lemma box_row_tokens (row : list value) :
  box_row_ok row → row ≠ [] ∧ Forall (λ v, token (str_value v)) row.
Proof.
  intros (a & b & -> & Ha & Hb). split; [done|].
  repeat first [apply Forall_nil_2 | apply Forall_cons_2];
    by apply (token_float is_num_char); [apply num_char_not_space|].
Qed.

(** X12: writing a well-formed record of the base class and parsing the
    text gives the record back, in charge style ([read_charge = True],
    atoms of seven fields) and in atomic style ([read_charge = False],
    atoms of six fields). *)
Theorem base_round_trip (read_charge : bool) (r : LD.t) :
  well_formed_base read_charge r →
  ∃ text, LD.__str__ r = Ok text ∧ LD.from_file text read_charge = Ok r.
Proof.
  intros (Hcount & Hlen & Hbox & Hmasses & Hatoms).
  destruct r as [box natoms natom_types masses atoms]. simpl in *.
  destruct Hcount as [Hn Hnt]. simpl in Hn, Hnt. subst natoms natom_types.
  destruct box as [|r0 [|r1 [|r2 [|r3 box]]]]; try done.
  apply Forall_cons in Hbox as [H0 Hbox]. apply Forall_cons in Hbox as [H1 Hbox].
  apply Forall_cons in Hbox as [H2 _].
  pose proof H0 as (a0 & a1 & E0 & _). pose proof H1 as (b0 & b1 & E1 & _).
  pose proof H2 as (c0 & c1 & E2 & _).
  eexists. split.
  { eapply base_written. simpl. by rewrite E0, E1, E2. }
  unfold LD.from_file, base_lines. simpl LD.natoms. simpl LD.natom_types.
  simpl LD.box_size. simpl LD.atomic_masses. simpl LD.atoms_data.
  set (body := LD.from_file_line read_charge).
  assert (Hrun : runs body
    ([lit "Data file generated by pymatgen"; [];
      str_nat (length atoms) ++ lit " atoms"; [];
      str_nat (length masses) ++ lit " atom types"; []]
     ++ box_lines [r0; r1; r2] ++ block "Masses" masses ++ block "Atoms" atoms)
    ([], [], []) (masses, [r0; r1; r2], atoms)).
  { eapply runs_app.
    { apply runs_skip.
      repeat first [apply Forall_nil_2 | apply Forall_cons_2]; intros e He;
        try (apply base_literal_line; [set_solver|done]).
      - apply (base_count_line read_charge (length atoms) [lit "atoms"]); auto.
      - apply (base_count_line read_charge (length masses)
                 [lit "atom"; lit "types"]); auto. }
    eapply runs_app.
    { unfold box_lines.
      eapply runs_cons; [intros e He; apply base_box_line; [done| |done]; by left|].
      eapply runs_cons;
        [intros e He; apply base_box_line; [done| |done]; right; by left|].
      eapply runs_cons;
        [intros e He; apply base_box_line; [done| |done]; right; by right|].
      apply runs_nil. }
    eapply runs_app.
    { apply base_runs_block;
        [by left
        |apply (base_runs_masses read_charge masses Hmasses [] [r0; r1; r2] [])
        |by intros ->]. }
    apply base_runs_block;
      [by right
      |apply (base_runs_atoms read_charge atoms Hatoms masses [r0; r1; r2] [])
      |by intros ->]. }
  rewrite (Hrun _); [done|]. apply readlines_join.
  - repeat rewrite Forall_app. split; [|split; [|split]].
    + do 6 (apply Forall_cons_2;
              [first [by apply all_forallb
                     |apply one_line_app;
                        [apply token_one_line, token_int; lia
                        |by apply all_forallb]]|]).
      apply Forall_nil_2.
    + unfold box_lines.
      do 3 (apply Forall_cons_2;
              [apply one_line_app;
                 [apply row_text_tokens; by apply box_row_tokens
                 |by apply all_forallb]|]).
      apply Forall_nil_2.
    + apply (block_full "Masses" mass_row_ok); [by apply all_forallb| |done].
      intros row Hrow. apply row_text_tokens; by apply mass_row_tokens.
    + apply (block_full "Atoms" (atom_row_ok read_charge));
        [by apply all_forallb| |done].
      intros row Hrow. apply row_text_tokens; by eapply atom_row_tokens.
  - rewrite !app_assoc. apply ends_full_app.
    + apply ends_full_app.
      * exists (row_text r2 ++ lit " zlo zhi"). split; [done|].
        destruct (row_text r2); done.
      * apply (block_full "Masses" mass_row_ok); [by apply all_forallb| |done].
        intros row Hrow. apply row_text_tokens; by apply mass_row_tokens.
    + apply (block_full "Atoms" (atom_row_ok read_charge));
        [by apply all_forallb| |done].
      intros row Hrow. apply row_text_tokens; by eapply atom_row_tokens.
Qed.

End BaseRoundTrip.

(** A record for the examples: one atom in a box of side 10. *)
Lemma literal_printed (c : ascii → bool) (s : str) :
  forallb c s = true → plain_literal s = true →
  @printed_as literal_floats c s.
Proof.
  intros Hc Hp. split; [simpl; by rewrite Hp|].
  split; [by apply all_forallb|]. by destruct s.
Qed.

Definition example_base : @LD.t literal_floats :=
  LD.__init__
    [[@VFloat literal_floats (lit "0.0"); @VFloat literal_floats (lit "10.0")];
     [@VFloat literal_floats (lit "0.0"); @VFloat literal_floats (lit "10.0")];
     [@VFloat literal_floats (lit "0.0"); @VFloat literal_floats (lit "10.0")]]
    [[VInt 1; @VFloat literal_floats (lit "12.011")]]
    [[VInt 1; VInt 1; VInt 1; @VFloat literal_floats (lit "-0.5");
      @VFloat literal_floats (lit "1.5"); @VFloat literal_floats (lit "2.5");
      @VFloat literal_floats (lit "3.5e-1")]].

Lemma example_base_well_formed : well_formed_base true example_base.
Proof.
  split; [by split|]. split; [done|].
  split; [|split].
  - repeat first [apply Forall_nil_2 | apply Forall_cons_2];
      eexists _, _; (split; [reflexivity|]); split; by apply literal_printed.
  - repeat first [apply Forall_nil_2 | apply Forall_cons_2].
    eexists _, _. split; [reflexivity|]. split; [done|].
    by apply literal_printed.
  - repeat first [apply Forall_nil_2 | apply Forall_cons_2].
    exists 1%Z, 1%Z, 1%Z,
      [lit "-0.5"; lit "1.5"; lit "2.5"; lit "3.5e-1"].
    split; [reflexivity|]. repeat (split; [done|]).
    repeat first [apply Forall_nil_2 | apply Forall_cons_2];
      by apply literal_printed.
Qed.

Lemma base_round_trip_witness :
  well_formed_base true example_base
  ∧ ∃ text,
      LD.__str__ example_base = Ok text
      ∧ LD.from_file text true = Ok example_base.
Proof.
  exact (conj example_base_well_formed
           (base_round_trip true example_base example_base_well_formed)).
Defined.
